(** * A village of warriors: the agent-based simulation of the notebooks

    Shallow embedding of the [Warrior] and [Village] classes of
    [ABMexample.ipynb] and [class17.ipynb] (the two notebooks carry the same
    two classes, character for character; the driver cell differs only in
    the population size, 600 against 500).

    Modelling choices.

    - Agents are Python objects held by the scheduler of the [mesa] library
      in an ordered dictionary keyed by [unique_id].  The store of agent
      objects is the list of the dictionary's values in insertion order; a
      reference to an agent ([self], [other]) is its position in that list,
      so two references alias exactly when the positions are equal.  The
      scheduler is library code and not part of the notebooks: its registry
      and its step are modelled from the specification.
    - [xp] starts as the integer [1] and is only ever changed by [+= 2.],
      [-= 2.] and [+= 1.], which are binary64 operations: it always holds
      an integer that binary64 represents.  It is modelled by that integer,
      and every update rounds its result as binary64 does
      ([binary64_round]): updates are exact up to magnitude 2^53 and round
      to the nearest representable integer, ties to even, beyond.
      [strength] is a Python integer and is not bounded.
    - The uniform draws are binary64 numbers and are compared with the
      literals [.8] and [.85] by the primitive floating-point comparisons.
    - The random generators (numpy's global generator and the generator
      used by the scheduler's shuffle) are an explicit state threaded
      through the program, behind the interface [RandomSource].
    - Python exceptions are the [Raise] results of an error monad. *)

From Stdlib Require Import ZArith Floats String.
From stdpp Require Import list.

Set Warnings "-inexact-float".

(** ** Python values, exceptions *)

(** The values a caller may pass for the population size. *)
Inductive PyVal :=
  | PyInt (z : Z)
  | PyFloat (x : float)
  | PyStr (s : string)
  | PyNone.

Inductive PyError :=
  | TypeError        (* an argument of the wrong type *)
  | ValueError       (* np.random.choice over an empty sequence *)
  | ReferenceError.  (* a position that names no agent object *)

Inductive result (A : Type) :=
  | Ok (a : A)
  | Raise (e : PyError).
Arguments Ok {A} a.
Arguments Raise {A} e.

(** [range(n)]: the integers [0 .. n-1], empty when [n <= 0]; anything
    that is not an integer is refused with [TypeError]. *)
Definition py_range (n : PyVal) : result (list Z) :=
  match n with
  | PyInt z => Ok (Z.of_nat <$> seq 0 (Z.to_nat z))
  | _ => Raise TypeError
  end.

(** ** The agent record *)

(** [unique_id] is set by [Agent.__init__] of mesa ([super().__init__(key,
    model)]); [id], [xp] and [strength] by [Warrior.__init__]. *)
Record Warrior := mkWarrior {
  unique_id : Z;
  id : Z;
  xp : Z;
  strength : Z
}.

(** The integer that binary64 holds for the integer [z]: [z] itself up to
    magnitude 2^53; beyond, the nearest multiple of the spacing of binary64
    at that magnitude (a power of two that leaves 53 significant bits),
    ties to the even significand.  No infinity arises from the updates of
    this program, which leave a value of magnitude 2^55 or more as it
    is. *)
Definition binary64_round (z : Z) : Z :=
  let a := Z.abs z in
  if (a <=? 2 ^ 53)%Z then z
  else
    let ulp := (2 ^ (Z.log2 a - 52))%Z in
    let q := (a / ulp)%Z in
    let r := (a mod ulp)%Z in
    let q' := if (2 * r <? ulp)%Z then q
              else if (ulp <? 2 * r)%Z then (q + 1)%Z
              else if Z.even q then q else (q + 1)%Z in
    (Z.sgn z * (q' * ulp))%Z.
Arguments binary64_round : simpl never.

(** [w.xp += d] for a float [d] of integer value, and [w.strength += d] *)
Definition add_xp (d : Z) (w : Warrior) : Warrior :=
  mkWarrior (unique_id w) (id w) (binary64_round (xp w + d)) (strength w).
Definition add_strength (d : Z) (w : Warrior) : Warrior :=
  mkWarrior (unique_id w) (id w) (xp w) (strength w + d).

(** ** The model object *)

(** [num_agents] keeps the constructor's argument as given; [schedule] is
    the scheduler's ordered dictionary, as the list of its agents in
    insertion order ([schedule.agents]).  The scheduler's [steps] and [time]
    counters are never read by the program and are left out. *)
Record Village := mkVillage {
  num_agents : PyVal;
  schedule : list Warrior
}.

Definition set_schedule (f : list Warrior → list Warrior) (m : Village) : Village :=
  mkVillage (num_agents m) (f (schedule m)).

(** Modelled from the spec: the registry's lookup of an agent by its key
    (the registry is kept by the scheduler class of the mesa library, which
    is not part of the notebooks).  The result is the position of the agent
    stored under [key], if any. *)
Definition lookup_key (key : Z) (ags : list Warrior) : option nat :=
  fst <$> list_find (λ w, unique_id w = key) ags.

(** Modelled from the spec: the registry's insertion of an agent under
    its key.  A new key is appended, so that insertion order is creation
    order; under a key already present the entry is replaced in place, so
    that keys stay unique. *)
Definition dict_set (a : Warrior) (ags : list Warrior) : list Warrior :=
  match lookup_key (unique_id a) ags with
  | Some p => <[p := a]> ags
  | None => ags ++ [a]
  end.

(** ** The source of randomness *)

(** Modelled from the spec: the randomness source (numpy's and Python's
    generators are libraries, not part of the notebooks).  It supplies the
    uniform draws of the probability checks, the integer draws of the
    initial strengths, the permutation of the keys at each tick and the
    selection of one agent of the population; [G] is the generator's
    state, and each draw returns the state to continue from. *)

Class RandomSource (G : Type) := {
  (** [np.random.uniform(0, 1)] *)
  uniform : G → float * G;
  (** [np.random.randint(low, high)] *)
  randint : Z → Z → G → Z * G;
  (** the index that [np.random.choice] draws in a sequence of the given
      length *)
  choice : nat → G → nat * G;
  (** [random.shuffle] on a list of keys *)
  shuffle : list Z → G → list Z * G
}.

(** What the libraries document of these draws: [randint(low, high)] lies
    in [low .. high-1], [choice] returns an element of the sequence, and
    [shuffle] permutes the list. *)
Class RandomSourceLaws (G : Type) `{RandomSource G} : Prop := {
  randint_range : ∀ lo hi g, (lo < hi)%Z →
    (lo ≤ (randint lo hi g).1 < hi)%Z;
  choice_range : ∀ n g, 0 < n → (choice n g).1 < n;
  shuffle_perm : ∀ l g, (shuffle l g).1 ≡ₚ l
}.

(** ** The monad: generator state and model object, with exceptions *)

Definition M (G A : Type) : Type := G * Village → result (A * (G * Village)).

#[export] Instance M_ret {G} : MRet (M G) := λ A a w, Ok (a, w).
#[export] Instance M_bind {G} : MBind (M G) := λ A B k m w,
  match m w with
  | Ok (a, w') => k a w'
  | Raise e => Raise e
  end.

Definition raise {G A} (e : PyError) : M G A := λ _, Raise e.
Definition lift {G A} (r : result A) : M G A := λ w,
  match r with Ok a => Ok (a, w) | Raise e => Raise e end.

Definition get_agents {G} : M G (list Warrior) := λ w, Ok (schedule w.2, w).

Definition np_random_uniform `{RandomSource G} : M G float := λ w,
  let '(u, g') := uniform w.1 in Ok (u, (g', w.2)).

Definition np_random_randint `{RandomSource G} (lo hi : Z) : M G Z := λ w,
  let '(z, g') := randint lo hi w.1 in Ok (z, (g', w.2)).

(** [np.random.choice(self.model.schedule.agents)]: a reference to one of
    the agents; [ValueError] on an empty population. *)
Definition np_random_choice_agents `{RandomSource G} : M G nat := λ w,
  match length (schedule w.2) with
  | O => Raise ValueError
  | S _ as n => let '(i, g') := choice n w.1 in Ok (i, (g', w.2))
  end.

Definition random_shuffle `{RandomSource G} (keys : list Z) : M G (list Z) := λ w,
  let '(keys', g') := shuffle keys w.1 in Ok (keys', (g', w.2)).

(** Reading and updating the agent object behind a reference. *)
Definition read_agent {G} (p : nat) : M G Warrior := λ w,
  match schedule w.2 !! p with
  | Some a => Ok (a, w)
  | None => Raise ReferenceError
  end.

Definition modify_agent {G} (p : nat) (f : Warrior → Warrior) : M G unit := λ w,
  match schedule w.2 !! p with
  | Some _ => Ok (tt, (w.1, set_schedule (alter f p) w.2))
  | None => Raise ReferenceError
  end.

(** ** [Warrior] *)

(** [Warrior.__init__(self, key, model)] *)
Definition Warrior_init `{RandomSource G} (key : Z) : M G Warrior :=
  s ← np_random_randint 1 10;
  mret (mkWarrior key key 1 s).

Definition is_hunt_success (u : float) : bool := (0.8 <=? u)%float.
Definition do_wrestle (v : float) : bool := (0.85 <? v)%float.

(** The hunt block of [Warrior.step]. *)
Definition hunt `{RandomSource G} (self : nat) : M G unit :=
  u ← np_random_uniform;
  if is_hunt_success u then
    modify_agent self (add_xp 2);;
    modify_agent self (add_strength 3)
  else mret tt.

(** The wrestle block of [Warrior.step]. *)
Definition wrestle `{RandomSource G} (self : nat) : M G unit :=
  v ← np_random_uniform;
  if do_wrestle v then
    other ← np_random_choice_agents;
    a ← read_agent self;
    b ← read_agent other;
    if (strength a <? strength b)%Z then
      modify_agent self (add_xp (-2));;
      modify_agent other (add_xp 1)
    else
      modify_agent other (add_xp (-2));;
      modify_agent self (add_xp 1)
  else mret tt.

(** [Warrior.step(self)] *)
Definition Warrior_step `{RandomSource G} (self : nat) : M G unit :=
  hunt self;;
  wrestle self.

(** ** [Village] and the scheduler *)

(** Modelled from the spec: [schedule.add(agent)], the agent enters the
    registry under its key. *)
Definition schedule_add {G} (a : Warrior) : M G unit := λ w,
  Ok (tt, (w.1, set_schedule (dict_set a) w.2)).

Fixpoint for_each {G A} (l : list A) (body : A → M G unit) : M G unit :=
  match l with
  | [] => mret tt
  | x :: l' => body x;; for_each l' body
  end.

(** [Village.__init__(self, n)], started on the generator state [g]. *)
Definition Village_init `{RandomSource G} (n : PyVal) (g : G)
  : result (unit * (G * Village)) :=
  (keys ← lift (py_range n);
   for_each keys (λ i, agent ← Warrior_init i; schedule_add agent))
  (g, mkVillage n []).

(** Modelled from the spec: the activation loop of the scheduler (class
    [RandomActivation] of the mesa library, not part of the notebooks).  In
    the order of the permuted keys, the agent found in the registry under
    each key has its [step] called, on the store as the earlier
    activations of the tick left it; a key that the registry does not hold
    is passed over.  The result is the list of the agents activated, in
    order: the scheduler itself returns nothing, the list is there to count
    activations. *)
Fixpoint agent_buffer `{RandomSource G} (keys : list Z) : M G (list nat) :=
  match keys with
  | [] => mret []
  | key :: rest =>
      ags ← get_agents;
      match lookup_key key ags with
      | Some self =>
          Warrior_step self;;
          log ← agent_buffer rest;
          mret (self :: log)
      | None => agent_buffer rest
      end
  end.

(** Modelled from the spec: [schedule.step()], one tick.  A random
    permutation of the keys of all agents currently in the registry is
    drawn, then the agents are activated in that order. *)
Definition RandomActivation_step `{RandomSource G} : M G (list nat) :=
  ags ← get_agents;
  keys ← random_shuffle (unique_id <$> ags);
  agent_buffer keys.

(** [Village.step(self)]: [self.schedule.step()] *)
Definition Village_step `{RandomSource G} : M G (list nat) :=
  RandomActivation_step.

(** ** The driver cell *)

(** [for i in range(T): model.step()] *)
Fixpoint run_ticks `{RandomSource G} (T : nat) : M G unit :=
  match T with
  | O => mret tt
  | S T' => Village_step;; run_ticks T'
  end.

(** The read-out [map(lambda x: (x.xp, x.strength), model.schedule.agents)] *)
Definition read_out (m : Village) : list (Z * Z) :=
  (λ x, (xp x, strength x)) <$> schedule m.

(** [model = Village(n)], [T] calls of [model.step()], then the read-out. *)
Definition simulate `{RandomSource G} (n : PyVal) (T : nat) (g : G)
  : result (list (Z * Z)) :=
  match Village_init n g with
  | Raise e => Raise e
  | Ok (_, w) =>
      match run_ticks T w with
      | Raise e => Raise e
      | Ok (_, w') => Ok (read_out w'.2)
      end
  end.

Definition total_xp (ags : list Warrior) : Z :=
  foldr (λ w acc, (xp w + acc)%Z) 0%Z ags.

(** ** The blocks of [Warrior.step] as store transformers

    What the hunt and the wrestle blocks do to the list of agents once the
    draws are known; the run lemmas below relate the monadic code to them. *)
Definition hunted (u : float) (self : nat) (ags : list Warrior) : list Warrior :=
  if is_hunt_success u
  then alter (add_strength 3) self (alter (add_xp 2) self ags)
  else ags.

Definition wrestled (self other : nat) (ags : list Warrior) : list Warrior :=
  match ags !! self, ags !! other with
  | Some a, Some b =>
      if (strength a <? strength b)%Z
      then alter (add_xp 1) other (alter (add_xp (-2)) self ags)
      else alter (add_xp 1) self (alter (add_xp (-2)) other ags)
  | _, _ => ags
  end.

(** The three draws of one activation started on the generator state [g]:
    the hunt roll, the wrestle roll and, when the wrestle fires, the
    position picked in a population of [n] agents. *)
Definition hunt_roll `{RandomSource G} (g : G) : float := (uniform g).1.
Definition wrestle_roll `{RandomSource G} (g : G) : float :=
  (uniform (uniform g).2).1.
Definition opponent_pick `{RandomSource G} (n : nat) (g : G) : nat :=
  (choice n (uniform (uniform g).2).2).1.

(** The amount added at position [p] by an update of [d] at position [i]. *)
Definition bump (i : nat) (d : Z) (p : nat) : Z :=
  if decide (i = p) then d else 0%Z.

(** An xp from which every update of one activation is exact: the hunt
    adds 2, the wrestle then adds 1 or takes 2 (or both, on a self pick),
    and binary64 is exact up to 2^53. *)
Definition xp_exact (a : Warrior) : Prop :=
  (Z.abs (xp a) ≤ 2 ^ 53 - 3)%Z.

(** Every xp of the population within the magnitude [B]. *)
Definition xp_bounded (B : Z) (ags : list Warrior) : Prop :=
  Forall (λ a, (Z.abs (xp a) ≤ B)%Z) ags.

(** The position of a key in the dictionary's list of keys. *)
Definition key_pos (keys : list Z) (key : Z) : option nat :=
  fst <$> list_find (λ x, x = key) keys.

(** An agent record later in a run, against the same record earlier: the
    keys are the same and the strength is not smaller. *)
Definition grows (w w' : Warrior) : Prop :=
  unique_id w' = unique_id w ∧ id w' = id w ∧ (strength w ≤ strength w')%Z.

(** The dictionary invariant: no key is stored twice. *)
Definition keys_unique (m : Village) : Prop :=
  NoDup (unique_id <$> schedule m).

(** A population of [k] agents as the constructor builds it: the agent at
    position [i] carries the key [i], xp 1 and a strength from 1 to 9. *)
Definition newly_built (k : nat) (ags : list Warrior) : Prop :=
  length ags = k ∧
  ∀ i w, ags !! i = Some w →
    unique_id w = Z.of_nat i ∧ id w = Z.of_nat i ∧
    xp w = 1%Z ∧ (1 ≤ strength w ≤ 9)%Z.

(** ** A scripted source of randomness

    A generator that replays prepared draws, the way a test forces the
    rolls and the opponent pick: uniform draws are read off [rolls],
    initial strengths off [ints], opponent picks off [picks], and a
    shuffle rotates the keys by the next entry of [cuts]. *)
Record Tape := mkTape {
  rolls : list float;
  ints : list Z;
  picks : list nat;
  cuts : list nat
}.

Definition tape_uniform (t : Tape) : float * Tape :=
  (hd 0%float (rolls t), mkTape (tl (rolls t)) (ints t) (picks t) (cuts t)).
Definition tape_randint (lo hi : Z) (t : Tape) : Z * Tape :=
  ((lo + hd 0 (ints t) `mod` (hi - lo))%Z,
   mkTape (rolls t) (tl (ints t)) (picks t) (cuts t)).
Definition tape_choice (n : nat) (t : Tape) : nat * Tape :=
  (hd 0 (picks t) `mod` n, mkTape (rolls t) (ints t) (tl (picks t)) (cuts t)).
Definition tape_shuffle (l : list Z) (t : Tape) : list Z * Tape :=
  (rotate (hd 0 (cuts t)) l, mkTape (rolls t) (ints t) (picks t) (tl (cuts t))).

#[export] Instance Tape_source : RandomSource Tape :=
  {| uniform := tape_uniform; randint := tape_randint;
     choice := tape_choice; shuffle := tape_shuffle |}.

(** The same scripted source with a counter of the draws made, as an
    instrumented generator would keep one. *)
Definition Counted : Type := Tape * nat.

Definition counted {A} (draw : Tape → A * Tape) (c : Counted) : A * Counted :=
  let '(x, t') := draw c.1 in (x, (t', S c.2)).

#[export] Instance Counted_source : RandomSource Counted :=
  {| uniform := counted tape_uniform;
     randint lo hi := counted (tape_randint lo hi);
     choice n := counted (tape_choice n);
     shuffle l := counted (tape_shuffle l) |}.

(** ** Sample data

    A village of three (strengths 5, 7 and 5, xp 1 each) and tapes that
    force the scenarios: hunt roll 0.9 and wrestle roll 0.5 for a hunt
    without wrestle; hunt roll 0.5 and wrestle roll 0.9 with the pick 1, 2
    or 0 for a lost contest, a tie and a contest with oneself. *)
Definition sample_village : Village :=
  mkVillage (PyInt 3)
    [mkWarrior 0 0 1 5; mkWarrior 1 1 1 7; mkWarrior 2 2 1 5].

(** Two agents of strength 5, the first with the xp [x]. *)
Definition village_with_xp (x : Z) : Village :=
  mkVillage (PyInt 2) [mkWarrior 0 0 x 5; mkWarrior 1 1 1 5].

Definition tape_hunt_only : Tape :=
  mkTape [0.9; 0.5]%float [] [] [].
Definition tape_wrestle (pick : nat) : Tape :=
  mkTape [0.5; 0.9]%float [] [pick] [].
Definition tape_run : Tape :=
  mkTape [0.9; 0.9; 0.1; 0.95; 0.85; 0.86; 0.8; 0.2; 0.3; 0.99; 0.81; 0.9]%float
         [4; 17; 8]%Z [1; 5; 0; 2] [1; 2].

(** ** Totals and traces *)

Definition total_strength (ags : list Warrior) : Z :=
  foldr (λ w acc, (strength w + acc)%Z) 0%Z ags.

(** A sequence of activations, one after the other on the same store:
    [activations log w w'] when calling [step] on the agents of [log], in
    that order, leads from [w] to [w'] without raising. *)
Inductive activations `{RandomSource G}
  : list nat → G * Village → G * Village → Prop :=
  | activations_nil w : activations [] w w
  | activations_cons self log w w1 w2 :
      self < length (schedule w.2) →
      Warrior_step self w = Ok (tt, w1) →
      activations log w1 w2 →
      activations (self :: log) w w2.

(** The generator state after [k] uniform draws. *)
Definition after_uniforms `{RandomSource G} (k : nat) (g : G) : G :=
  Nat.iter k (λ g, (uniform g).2) g.

(** ** The sampling cell of [class17.ipynb] *)

Module Sampling.

(** Integers as numpy turns them into binary64 (exact below 2^53). *)
Definition float_of_Z (z : Z) : float :=
  if (z <? 0)%Z then (- of_uint63 (Uint63.of_Z (- z)))%float
  else of_uint63 (Uint63.of_Z z).

(** [np.arange(start, stop, step)] on integers, [step] positive. *)
Definition np_arange (start stop step : Z) : list Z :=
  (λ i, (start + Z.of_nat i * step)%Z)
    <$> seq 0 (Z.to_nat ((stop - start + step - 1) / step)).

(** [b = 2] and [mue = 0.2]; [b] only ever enters binary64 arithmetic. *)
Definition b : float := 2.
Definition mue : float := 0.2.

(** [f(x)] on an array, element by element.  [np.exp] is a function of the
    numpy library and is taken as a parameter. *)
Definition f (np_exp : float → float) (x : list float) : list float :=
  let z := (λ xi, (xi - mue) / b)%float <$> x in
  let x := (λ zi, zi + np_exp (- zi))%float <$> z in
  let f := (λ xi, (1 / b) * np_exp (- xi))%float <$> x in
  f.

(** What an [if] is given in [MCMC]: the attribute [all] of the boolean
    array, read but not called, which is a bound method of that array. *)
Variant PyObject :=
  | BoundMethod (self : list bool).

(** The truth value of an object: a method object is true. *)
Definition truth (o : PyObject) : bool :=
  match o with
  | BoundMethod _ => true
  end.

(** The body of the loop of [MCMC], for each [i] of the range.  The
    assignment [i = i + 1] is overwritten by the next turn of the [for] and
    [sample_num] is never used. *)
Fixpoint MCMC_loop `{RandomSource G} (np_exp : float → float)
    (range : list Z) (X_valSample : list (list float)) (g : G)
  : list (list float) * G :=
  match range with
  | [] => (X_valSample, g)
  | i :: rest =>
      let X := float_of_Z <$> np_arange (-10) 30 5 in
      let '(r, g) := uniform g in
      let X_hat := (λ x, x + r)%float <$> X in
      let '(u, g) := uniform g in
      let ratio := zip_with (λ p q, p / q)%float (f np_exp X_hat) (f np_exp X) in
      let test := BoundMethod ((λ q, u <? q)%float <$> ratio) in
      if truth test
      then MCMC_loop np_exp rest (X_valSample ++ [X_hat]) g
      else MCMC_loop np_exp rest X_valSample g
  end.

(** [MCMC(K)] *)
Definition MCMC `{RandomSource G} (np_exp : float → float) (K : PyVal) (g : G)
  : result (list (list float) * G) :=
  match py_range K with
  | Raise e => Raise e
  | Ok range => Ok (MCMC_loop np_exp range [] g)
  end.

End Sampling.

(** ** Running the primitives *)

Section Run.
Context `{RandomSource G}.
Implicit Types (g : G) (m : Village) (ags : list Warrior) (a b : Warrior).

Lemma bind_run {A B} (c : M G A) (k : A → M G B) w :
  (c ≫= k) w = match c w with Ok (x, w') => k x w' | Raise e => Raise e end.
Proof. reflexivity. Qed.

Lemma modify_agent_run p f g m :
  p < length (schedule m) →
  modify_agent p f (g, m) = Ok (tt, (g, set_schedule (alter f p) m)).
Proof.
  intros Hp. unfold modify_agent. simpl.
  destruct (lookup_lt_is_Some_2 _ _ Hp) as [a ->]. reflexivity.
Qed.

Lemma read_agent_run p g m a :
  schedule m !! p = Some a → read_agent p (g, m) = Ok (a, (g, m)).
Proof. intros Hp. unfold read_agent. simpl. by rewrite Hp. Qed.

Lemma length_hunted u self ags : length (hunted u self ags) = length ags.
Proof. unfold hunted. destruct (is_hunt_success u); by rewrite ?length_alter. Qed.

Lemma length_wrestled self other ags :
  length (wrestled self other ags) = length ags.
Proof.
  unfold wrestled. destruct (ags !! self), (ags !! other); try done.
  destruct (_ <? _)%Z; by rewrite !length_alter.
Qed.

Lemma hunt_run self g m :
  self < length (schedule m) →
  hunt self (g, m)
  = Ok (tt, ((uniform g).2, set_schedule (hunted (uniform g).1 self) m)).
Proof.
  intros Hs. unfold hunt, hunted, set_schedule. rewrite bind_run.
  unfold np_random_uniform. simpl. destruct (uniform g) as [u g1]. simpl.
  destruct (is_hunt_success u).
  - rewrite bind_run, modify_agent_run by done.
    rewrite modify_agent_run by (simpl; by rewrite length_alter).
    reflexivity.
  - by destruct m.
Qed.

Lemma wrestle_skip self g m :
  do_wrestle (uniform g).1 = false →
  wrestle self (g, m) = Ok (tt, ((uniform g).2, m)).
Proof.
  intros Hv. unfold wrestle. rewrite bind_run.
  unfold np_random_uniform. simpl. destruct (uniform g) as [v g1].
  simpl in *. rewrite Hv. by destruct m.
Qed.

Lemma binary64_round_exact z :
  (Z.abs z ≤ 2 ^ 53)%Z → binary64_round z = z.
Proof.
  intros Hz. unfold binary64_round.
  destruct (Z.leb_spec (Z.abs z) (2 ^ 53)); [done|lia].
Qed.

Lemma add_xp_exact d a :
  (Z.abs (xp a + d) ≤ 2 ^ 53)%Z →
  add_xp d a = mkWarrior (unique_id a) (id a) (xp a + d) (strength a).
Proof. intros Hx. unfold add_xp. by rewrite binary64_round_exact. Qed.

Lemma alter_as_insert (f : Warrior → Warrior) i ags a :
  ags !! i = Some a → alter f i ags = <[i := f a]> ags.
Proof.
  intros Ha. apply list_eq. intros j.
  destruct (decide (i = j)) as [->|Hne].
  - rewrite list_lookup_alter_eq, Ha.
    by rewrite list_lookup_insert_eq by (by eapply lookup_lt_Some).
  - by rewrite list_lookup_alter_ne, list_lookup_insert_ne.
Qed.

(** The store after a wrestle, position by position. *)
Lemma wrestled_lookup self other ags a b p :
  ags !! self = Some a → ags !! other = Some b →
  wrestled self other ags !! p
  = if (strength a <? strength b)%Z
    then if decide (p = self) then Some (add_xp (-2) a)
         else if decide (p = other) then Some (add_xp 1 b)
         else ags !! p
    else if decide (p = self)
         then Some (add_xp 1 (if decide (other = self)
                              then add_xp (-2) a else a))
         else if decide (p = other) then Some (add_xp (-2) b)
         else ags !! p.
Proof.
  intros Ha Hb. unfold wrestled. rewrite Ha, Hb.
  destruct (strength a <? strength b)%Z eqn:Hlt.
  - assert (other ≠ self) as Hne.
    { intros ->. simplify_eq. by rewrite Z.ltb_irrefl in Hlt. }
    rewrite !list_lookup_alter.
    repeat case_decide; simplify_eq; by rewrite ?Ha, ?Hb.
  - rewrite !list_lookup_alter.
    repeat case_decide; simplify_eq; by rewrite ?Ha, ?Hb.
Qed.

(** A wrestle changes no key and no strength, and no record but those of
    the two contestants. *)
Lemma wrestled_fields self other ags p w :
  ags !! p = Some w →
  ∃ w', wrestled self other ags !! p = Some w' ∧
    unique_id w' = unique_id w ∧ id w' = id w ∧
    strength w' = strength w ∧
    (p ≠ self → p ≠ other → w' = w).
Proof.
  intros Hw. unfold wrestled.
  destruct (ags !! self) as [a|] eqn:Ha; [|by exists w].
  destruct (ags !! other) as [b|] eqn:Hb; [|by exists w].
  destruct (strength a <? strength b)%Z; rewrite !list_lookup_alter;
    repeat case_decide; simplify_eq; rewrite ?Ha, ?Hb, ?Hw; simpl;
    eexists; (split; [done|]); done.
Qed.

Lemma total_xp_alter (f : Warrior → Warrior) i ags a :
  ags !! i = Some a →
  total_xp (alter f i ags) = (total_xp ags + (xp (f a) - xp a))%Z.
Proof.
  unfold total_xp, alter. revert i.
  induction ags as [|w ags IH]; intros [|i] Hi; simpl in *; try done.
  - simplify_eq. lia.
  - rewrite (IH i Hi). lia.
Qed.

Lemma total_xp_alter_strength d i ags :
  total_xp (alter (add_strength d) i ags) = total_xp ags.
Proof.
  unfold total_xp, alter. revert i.
  induction ags as [|w ags IH]; intros [|i]; simpl; try done.
  by rewrite IH.
Qed.

Lemma hunted_lookup_self u self ags a :
  ags !! self = Some a →
  hunted u self ags !! self
  = Some (if is_hunt_success u then add_strength 3 (add_xp 2 a) else a).
Proof.
  intros Ha. unfold hunted. destruct (is_hunt_success u); [|done].
  by rewrite !list_lookup_alter_eq, Ha.
Qed.

Lemma hunted_lookup_ne u self ags p :
  p ≠ self → hunted u self ags !! p = ags !! p.
Proof.
  intros Hp. unfold hunted. destruct (is_hunt_success u); [|done].
  by rewrite !list_lookup_alter_ne.
Qed.

Lemma wrestled_lose self other ags a b :
  ags !! self = Some a → ags !! other = Some b →
  (strength a < strength b)%Z →
  wrestled self other ags
  = alter (add_xp 1) other (alter (add_xp (-2)) self ags).
Proof.
  intros Ha Hb Hlt. unfold wrestled. rewrite Ha, Hb.
  by rewrite (proj2 (Z.ltb_lt _ _) Hlt).
Qed.

Lemma wrestled_win self other ags a b :
  ags !! self = Some a → ags !! other = Some b →
  (strength b ≤ strength a)%Z →
  wrestled self other ags
  = alter (add_xp 1) self (alter (add_xp (-2)) other ags).
Proof.
  intros Ha Hb Hle. unfold wrestled. rewrite Ha, Hb.
  by rewrite (proj2 (Z.ltb_ge _ _) Hle).
Qed.

Lemma hunted_xp_range u self ags p w1 :
  Forall xp_exact ags →
  hunted u self ags !! p = Some w1 →
  (- 2 ^ 53 + 3 ≤ xp w1 ≤ 2 ^ 53 - 1)%Z.
Proof.
  intros Hall Hp.
  assert (∀ w, ags !! p = Some w → (Z.abs (xp w) ≤ 2 ^ 53 - 3)%Z) as Hex.
  { intros w Hw. exact (proj1 (Forall_lookup _ _) Hall p w Hw). }
  destruct (decide (p = self)) as [->|Hne].
  - destruct (ags !! self) as [a|] eqn:Ha.
    + rewrite (hunted_lookup_self _ _ _ _ Ha) in Hp. simplify_eq.
      specialize (Hex a eq_refl).
      destruct (is_hunt_success u); [|lia].
      simpl. rewrite binary64_round_exact; lia.
    + apply lookup_lt_Some in Hp. rewrite length_hunted in Hp.
      apply lookup_ge_None in Ha. lia.
  - rewrite hunted_lookup_ne in Hp by done. specialize (Hex w1 Hp). lia.
Qed.

Lemma total_xp_hunted u self ags a :
  ags !! self = Some a →
  (Z.abs (xp a + 2) ≤ 2 ^ 53)%Z →
  total_xp (hunted u self ags)
  = (total_xp ags + if is_hunt_success u then 2 else 0)%Z.
Proof.
  intros Ha Hx. unfold hunted. destruct (is_hunt_success u); [|lia].
  rewrite total_xp_alter_strength, (total_xp_alter _ _ _ _ Ha).
  rewrite add_xp_exact by done. simpl. lia.
Qed.

Lemma total_xp_wrestled self other ags a b :
  ags !! self = Some a → ags !! other = Some b →
  (- 2 ^ 53 + 2 ≤ xp a ≤ 2 ^ 53 - 1)%Z →
  (- 2 ^ 53 + 2 ≤ xp b ≤ 2 ^ 53 - 1)%Z →
  total_xp (wrestled self other ags) = (total_xp ags - 1)%Z.
Proof.
  intros Ha Hb Hxa Hxb. unfold wrestled. rewrite Ha, Hb.
  destruct (strength a <? strength b)%Z eqn:Hlt.
  - assert (other ≠ self) as Hne.
    { intros ->. simplify_eq. by rewrite Z.ltb_irrefl in Hlt. }
    rewrite (total_xp_alter _ other _ b)
      by (by rewrite list_lookup_alter_ne).
    rewrite (total_xp_alter _ _ _ _ Ha).
    rewrite !add_xp_exact by lia. simpl. lia.
  - destruct (decide (other = self)) as [->|Hne].
    + simplify_eq.
      rewrite (total_xp_alter _ self _ (add_xp (-2) a))
        by (by rewrite list_lookup_alter_eq, Ha).
      rewrite (total_xp_alter _ _ _ _ Ha).
      rewrite (add_xp_exact (-2) a) by lia.
      rewrite add_xp_exact by (simpl; lia). simpl. lia.
    + rewrite (total_xp_alter _ self _ a)
        by (by rewrite list_lookup_alter_ne).
      rewrite (total_xp_alter _ _ _ _ Hb).
      rewrite !add_xp_exact by lia. simpl. lia.
Qed.

End Run.

(** ** Running an activation, with draws that obey the libraries' laws *)

Section Activation.
Context `{RandomSourceLaws G}.
Implicit Types (g : G) (m : Village) (ags : list Warrior) (a b : Warrior).

Lemma choice_agents_run g m :
  0 < length (schedule m) →
  np_random_choice_agents (g, m)
  = Ok ((choice (length (schedule m)) g).1,
        ((choice (length (schedule m)) g).2, m))
  ∧ (choice (length (schedule m)) g).1 < length (schedule m).
Proof.
  intros Hn. split; [|by apply choice_range].
  unfold np_random_choice_agents. simpl.
  destruct (length (schedule m)) as [|n] eqn:E; [lia|].
  by destruct (choice (S n) g).
Qed.

Lemma wrestle_run self g m :
  self < length (schedule m) →
  wrestle self (g, m)
  = if do_wrestle (uniform g).1
    then Ok (tt, ((choice (length (schedule m)) (uniform g).2).2,
                  set_schedule
                    (wrestled self (choice (length (schedule m)) (uniform g).2).1)
                    m))
    else Ok (tt, ((uniform g).2, m)).
Proof.
  intros Hs. unfold wrestle. rewrite bind_run.
  unfold np_random_uniform. simpl. destruct (uniform g) as [v g1]. simpl.
  destruct (do_wrestle v); [|done].
  assert (0 < length (schedule m)) as Hn by lia.
  destruct (choice_agents_run g1 m Hn) as [Hrun Hlt].
  rewrite bind_run, Hrun.
  set (other := (choice (length (schedule m)) g1).1) in *.
  set (g2 := (choice (length (schedule m)) g1).2).
  destruct (lookup_lt_is_Some_2 _ _ Hs) as [a Ha].
  destruct (lookup_lt_is_Some_2 _ _ Hlt) as [b Hb].
  rewrite bind_run, (read_agent_run _ _ _ _ Ha).
  rewrite bind_run, (read_agent_run _ _ _ _ Hb).
  unfold wrestled, set_schedule. rewrite Ha, Hb.
  destruct (strength a <? strength b)%Z.
  - rewrite bind_run, modify_agent_run by done.
    rewrite modify_agent_run by (simpl; by rewrite length_alter).
    reflexivity.
  - rewrite bind_run, modify_agent_run by done.
    rewrite modify_agent_run by (simpl; by rewrite length_alter).
    reflexivity.
Qed.

(** An activation is the hunt block followed by the wrestle block on the
    store that the hunt leaves. *)
Lemma Warrior_step_run self g m :
  self < length (schedule m) →
  Warrior_step self (g, m)
  = if do_wrestle (wrestle_roll g)
    then Ok (tt, ((choice (length (schedule m)) (uniform (uniform g).2).2).2,
                  set_schedule
                    (λ ags, wrestled self (opponent_pick (length ags) g)
                              (hunted (hunt_roll g) self ags)) m))
    else Ok (tt, ((uniform (uniform g).2).2,
                  set_schedule (hunted (hunt_roll g) self) m)).
Proof.
  intros Hs. unfold Warrior_step. rewrite bind_run, hunt_run by done.
  rewrite wrestle_run by (simpl; by rewrite length_hunted).
  unfold wrestle_roll, opponent_pick, hunt_roll. simpl.
  rewrite length_hunted. reflexivity.
Qed.

(** What one activation does to each agent, position by position. *)
Lemma Warrior_step_pointwise self g m :
  self < length (schedule m) →
  ∃ g' m',
    Warrior_step self (g, m) = Ok (tt, (g', m')) ∧
    num_agents m' = num_agents m ∧
    length (schedule m') = length (schedule m) ∧
    ∀ p w, schedule m !! p = Some w →
      ∃ w', schedule m' !! p = Some w' ∧
        unique_id w' = unique_id w ∧ id w' = id w ∧
        (strength w' = strength w
         ∨ p = self ∧ strength w' = (strength w + 3)%Z) ∧
        (p ≠ self →
         do_wrestle (wrestle_roll g) = false
         ∨ p ≠ opponent_pick (length (schedule m)) g →
         w' = w).
Proof.
  intros Hs.
  set (n := length (schedule m)).
  assert (opponent_pick n g < n) as Ho
    by (unfold opponent_pick; apply choice_range; lia).
  set (ags := hunted (hunt_roll g) self (schedule m)).
  assert (length ags = n) as Hlen by apply length_hunted.
  destruct (lookup_lt_is_Some_2 ags self) as [a Ha]; [lia|].
  destruct (lookup_lt_is_Some_2 ags (opponent_pick n g)) as [b Hb]; [lia|].
  assert (∀ p w, schedule m !! p = Some w →
            ∃ w1, ags !! p = Some w1 ∧ unique_id w1 = unique_id w ∧
                  id w1 = id w ∧
                  (strength w1 = strength w
                   ∨ p = self ∧ strength w1 = (strength w + 3)%Z) ∧
                  (p ≠ self → w1 = w)) as Hhunt.
  { intros p w Hp. destruct (decide (p = self)) as [->|Hne].
    - unfold ags. rewrite (hunted_lookup_self _ _ _ _ Hp).
      eexists. split; [done|].
      destruct (is_hunt_success _); simpl;
        (split; [done|]; split; [done|]; split; [auto|done]).
    - unfold ags. rewrite hunted_lookup_ne by done. exists w.
      repeat split; auto. }
  rewrite Warrior_step_run by done.
  destruct (do_wrestle (wrestle_roll g)) eqn:Hw.
  - eexists _, _.
    split; [done|]. cbn [schedule set_schedule snd num_agents].
    fold n. fold ags. split; [done|].
    split; [by rewrite length_wrestled|].
    intros p w Hp. destruct (Hhunt p w Hp) as (w1 & Hp1 & Hk & Hi & Hst & Hw1).
    destruct (wrestled_fields self (opponent_pick n g) ags p w1 Hp1)
      as (w' & Hp' & Hk' & Hi' & Hst' & Hsame).
    exists w'. split; [done|].
    split; [congruence|]. split; [congruence|].
    split; [rewrite Hst'; exact Hst|].
    intros Hne [?|Hno]; [done|]. rewrite Hsame by done. by apply Hw1.
  - eexists _, _.
    split; [done|]. cbn [schedule set_schedule snd num_agents].
    fold ags. split; [done|]. split; [done|].
    intros p w Hp. destruct (Hhunt p w Hp) as (w1 & Hp1 & Hk & Hi & Hst & Hw1).
    exists w1. split; [done|]. split; [done|]. split; [done|].
    split; [done|]. intros Hne _. by apply Hw1.
Qed.

(** The xp summed over the population across one activation, while every
    update is exact. *)
Lemma Warrior_step_total_xp self g m :
  self < length (schedule m) →
  Forall xp_exact (schedule m) →
  ∃ g' m',
    Warrior_step self (g, m) = Ok (tt, (g', m')) ∧
    total_xp (schedule m')
    = (total_xp (schedule m)
       + (if is_hunt_success (hunt_roll g) then 2 else 0)
       - (if do_wrestle (wrestle_roll g) then 1 else 0))%Z.
Proof.
  intros Hs Hall.
  destruct (lookup_lt_is_Some_2 _ _ Hs) as [a0 Ha0].
  pose proof (proj1 (Forall_lookup _ _) Hall self a0 Ha0) as Hx0.
  unfold xp_exact in Hx0.
  pose proof (total_xp_hunted (hunt_roll g) self _ a0 Ha0) as Hhu.
  rewrite Warrior_step_run by done.
  destruct (do_wrestle (wrestle_roll g)).
  - eexists _, _. split; [done|]. cbn [schedule set_schedule snd].
    set (ags := hunted (hunt_roll g) self (schedule m)) in *.
    assert (length ags = length (schedule m)) as Hlen by apply length_hunted.
    destruct (lookup_lt_is_Some_2 ags self) as [a Ha]; [lia|].
    destruct (lookup_lt_is_Some_2 ags
                (opponent_pick (length (schedule m)) g)) as [b Hb].
    { rewrite Hlen. unfold opponent_pick. apply choice_range. lia. }
    pose proof (hunted_xp_range _ _ _ _ _ Hall Ha).
    pose proof (hunted_xp_range _ _ _ _ _ Hall Hb).
    rewrite (total_xp_wrestled _ _ _ _ _ Ha Hb) by lia.
    rewrite Hhu by lia. lia.
  - eexists _, _. split; [done|]. cbn [schedule set_schedule snd].
    rewrite Hhu by lia. lia.
Qed.

End Activation.

(** ** One activation: the hunt and the wrestle *)

Section ActivationClaims.
Context `{RandomSourceLaws G}.
Implicit Types (g : G) (m : Village) (ags : list Warrior) (a b : Warrior).

(** C1, as the code has it.  In an activation whose wrestle fires, the
    acting agent [a] (at [self]) and the picked opponent [b] (at [other])
    are compared on the strengths the wrestle block finds, that is on the
    store the hunt block of the same activation leaves.  If
    [strength a < strength b] the updates [self.xp -= 2.] then
    [other.xp += 1.] are applied; otherwise, ties included,
    [other.xp -= 2.] then [self.xp += 1.].  These are binary64 updates: for
    two distinct agents the loser's xp becomes the binary64 value of its xp
    less 2 and the winner's that of its xp plus 1, which are exactly 2
    less and 1 more while both xp are of magnitude 2^53 - 3 at most. *)
Theorem wrestle_outcome g m self :
  self < length (schedule m) →
  do_wrestle (wrestle_roll g) = true →
  ∃ a b g' m',
    let other := opponent_pick (length (schedule m)) g in
    let ags := hunted (hunt_roll g) self (schedule m) in
    hunt self (g, m) = Ok (tt, ((uniform g).2, set_schedule (λ _, ags) m)) ∧
    ags !! self = Some a ∧ ags !! other = Some b ∧
    Warrior_step self (g, m) = Ok (tt, (g', m')) ∧
    ((strength a < strength b)%Z →
       schedule m' = alter (add_xp 1) other (alter (add_xp (-2)) self ags) ∧
       xp <$> schedule m' !! self = Some (binary64_round (xp a - 2)) ∧
       xp <$> schedule m' !! other = Some (binary64_round (xp b + 1)) ∧
       (xp_exact a → xp_exact b →
          xp <$> schedule m' !! self = Some (xp a - 2)%Z ∧
          xp <$> schedule m' !! other = Some (xp b + 1)%Z)) ∧
    ((strength b ≤ strength a)%Z →
       schedule m' = alter (add_xp 1) self (alter (add_xp (-2)) other ags) ∧
       (other ≠ self →
          xp <$> schedule m' !! other = Some (binary64_round (xp b - 2)) ∧
          xp <$> schedule m' !! self = Some (binary64_round (xp a + 1)) ∧
          (xp_exact a → xp_exact b →
             xp <$> schedule m' !! other = Some (xp b - 2)%Z ∧
             xp <$> schedule m' !! self = Some (xp a + 1)%Z))).
Proof.
  intros Hs Hw.
  set (n := length (schedule m)).
  assert (opponent_pick n g < n) as Ho
    by (unfold opponent_pick; apply choice_range; lia).
  set (ags := hunted (hunt_roll g) self (schedule m)).
  assert (length ags = n) as Hlen by apply length_hunted.
  destruct (lookup_lt_is_Some_2 ags self) as [a Ha]; [lia|].
  destruct (lookup_lt_is_Some_2 ags (opponent_pick n g)) as [b Hb]; [lia|].
  exists a, b. eexists _, _. cbv zeta. fold n. fold ags.
  split; [by rewrite hunt_run by done|].
  split; [done|]. split; [done|].
  split; [by rewrite Warrior_step_run, Hw by done|].
  cbn [schedule set_schedule snd]. fold n. fold ags. split.
  - intros Hlt.
    assert (opponent_pick n g ≠ self) as Hne.
    { intros E. rewrite E, Ha in Hb. simplify_eq. lia. }
    split; [by eapply wrestled_lose|].
    rewrite !(wrestled_lookup _ _ _ _ _ _ Ha Hb).
    rewrite (proj2 (Z.ltb_lt _ _) Hlt).
    rewrite decide_True by done.
    rewrite (decide_False (P := opponent_pick n g = self)) by done.
    rewrite decide_True by done.
    split; [done|]. split; [done|].
    unfold xp_exact. intros Hxa Hxb. cbn [fmap option_fmap option_map xp add_xp].
    rewrite !binary64_round_exact by lia. done.
  - intros Hle. split; [by eapply wrestled_win|].
    intros Hne.
    rewrite !(wrestled_lookup _ _ _ _ _ _ Ha Hb).
    rewrite (proj2 (Z.ltb_ge _ _) Hle).
    rewrite (decide_False (P := opponent_pick n g = self)) by done.
    rewrite !decide_True by done.
    rewrite (decide_False (P := opponent_pick n g = self)) by done.
    split; [done|]. split; [done|].
    unfold xp_exact. intros Hxa Hxb. cbn [fmap option_fmap option_map xp add_xp].
    rewrite !binary64_round_exact by lia. done.
Qed.

(** C3, as the code has it.  When the wrestle fires and the pick is the
    acting agent itself, the activation returns without raising, the agent
    is compared with itself and takes the branch of the winner, and both
    updates, [-= 2.] then [+= 1.], land on the one record, with no other
    agent touched.  They are binary64 updates: the xp ends exactly 1 below
    what the hunt block left while that xp is of magnitude 2^53 - 3 at
    most. *)
Theorem self_contest g m self :
  self < length (schedule m) →
  do_wrestle (wrestle_roll g) = true →
  opponent_pick (length (schedule m)) g = self →
  ∃ a0 a g' m',
    schedule m !! self = Some a0 ∧
    a = (if is_hunt_success (hunt_roll g)
         then add_strength 3 (add_xp 2 a0) else a0) ∧
    hunt self (g, m)
    = Ok (tt, ((uniform g).2, set_schedule (λ ags, <[self := a]> ags) m)) ∧
    Warrior_step self (g, m) = Ok (tt, (g', m')) ∧
    schedule m'
    = alter (add_xp 1) self (alter (add_xp (-2)) self (<[self := a]> (schedule m))) ∧
    schedule m' !! self
    = Some (mkWarrior (unique_id a) (id a)
              (binary64_round (binary64_round (xp a - 2) + 1)) (strength a)) ∧
    (xp_exact a →
     schedule m' !! self
     = Some (mkWarrior (unique_id a) (id a) (xp a - 1) (strength a))) ∧
    ∀ p, p ≠ self → schedule m' !! p = schedule m !! p.
Proof.
  intros Hs Hw Hpick.
  destruct (lookup_lt_is_Some_2 _ _ Hs) as [a0 Ha0].
  pose proof (hunted_lookup_self (hunt_roll g) _ _ _ Ha0) as Ha.
  set (a := if is_hunt_success (hunt_roll g)
            then add_strength 3 (add_xp 2 a0) else a0) in *.
  assert (hunted (hunt_roll g) self (schedule m) = <[self := a]> (schedule m))
    as Hh.
  { unfold hunted, a. destruct (is_hunt_success (hunt_roll g)).
    - rewrite list_alter_alter_eq. by erewrite alter_as_insert.
    - by rewrite list_insert_id. }
  assert (wrestled self self (hunted (hunt_roll g) self (schedule m)) !! self
          = Some (mkWarrior (unique_id a) (id a)
                    (binary64_round (binary64_round (xp a - 2) + 1))
                    (strength a))) as Hself.
  { rewrite (wrestled_lookup _ _ _ _ _ _ Ha Ha), Z.ltb_irrefl.
    by rewrite !decide_True by done. }
  exists a0, a. eexists _, _.
  split; [done|]. split; [done|].
  split.
  { rewrite hunt_run by done. unfold set_schedule.
    fold (hunt_roll g). by rewrite Hh. }
  split; [by rewrite Warrior_step_run, Hw by done|].
  cbn [schedule set_schedule snd]. rewrite Hpick, <-Hh.
  split; [|split; [|split]].
  - eapply wrestled_win; [done..|lia].
  - exact Hself.
  - unfold xp_exact. intros Hx. rewrite Hself.
    rewrite (binary64_round_exact (xp a - 2)) by lia.
    rewrite binary64_round_exact by lia. do 2 f_equal. lia.
  - intros p Hp.
    rewrite (wrestled_lookup _ _ _ _ _ _ Ha Ha), Z.ltb_irrefl.
    rewrite !decide_False by done.
    by rewrite hunted_lookup_ne.
Qed.

(** C7.  An activation acting at [self] returns without raising and
    leaves the population size and every key as they were.  No strength
    changes except the acting agent's, and an agent that is neither the
    acting one nor the opponent picked by a wrestle that fired keeps its
    whole record. *)
Theorem activation_frame g m self :
  self < length (schedule m) →
  ∃ g' m',
    Warrior_step self (g, m) = Ok (tt, (g', m')) ∧
    num_agents m' = num_agents m ∧
    length (schedule m') = length (schedule m) ∧
    ∀ p w, schedule m !! p = Some w →
      ∃ w', schedule m' !! p = Some w' ∧
        unique_id w' = unique_id w ∧ id w' = id w ∧
        (p ≠ self → strength w' = strength w) ∧
        (p ≠ self →
         do_wrestle (wrestle_roll g) = false
         ∨ p ≠ opponent_pick (length (schedule m)) g →
         w' = w).
Proof.
  intros Hs.
  destruct (Warrior_step_pointwise self g m Hs)
    as (g' & m' & Hrun & Hn & Hlen & Hpt).
  exists g', m'. repeat split; try done.
  intros p w Hp.
  destruct (Hpt p w Hp) as (w' & Hp' & Hk & Hi & Hst & Hsame).
  exists w'. repeat split; try done.
  intros Hne. destruct Hst as [?|[? _]]; done.
Qed.


End ActivationClaims.

Section HuntClaims.
Context `{RandomSource G}.
Implicit Types (g : G) (m : Village) (a : Warrior).

(** C2, as the code has it.  The hunt block succeeds exactly when its roll
    [u] satisfies [u >= 0.8]: then the acting agent's xp becomes the
    binary64 value of its xp plus 2, which is exactly 2 more while the xp
    is of magnitude 2^53 - 3 at most, and its strength rises by 3;
    otherwise the hunt block changes nothing.  An agent with xp 1 and
    strength 5 whose hunt succeeds and whose wrestle does not fire ends the
    activation with xp 3 and strength 8, every other agent as it was. *)
Theorem hunt_phase g m self a :
  schedule m !! self = Some a →
  ((0.8 <=? hunt_roll g)%float = true →
     hunt self (g, m)
     = Ok (tt, ((uniform g).2,
                set_schedule
                  (λ ags, <[self := mkWarrior (unique_id a) (id a)
                                      (binary64_round (xp a + 2))
                                      (strength a + 3)]> ags) m)) ∧
     (xp_exact a → binary64_round (xp a + 2) = (xp a + 2)%Z)) ∧
  ((0.8 <=? hunt_roll g)%float = false →
     hunt self (g, m) = Ok (tt, ((uniform g).2, m))) ∧
  ((0.8 <=? hunt_roll g)%float = true →
   (0.85 <? wrestle_roll g)%float = false →
   xp a = 1%Z → strength a = 5%Z →
   ∃ g' m',
     Warrior_step self (g, m) = Ok (tt, (g', m')) ∧
     schedule m' !! self = Some (mkWarrior (unique_id a) (id a) 3 8) ∧
     ∀ p, p ≠ self → schedule m' !! p = schedule m !! p).
Proof.
  intros Ha.
  assert (self < length (schedule m)) as Hs by (by eapply lookup_lt_Some).
  assert ((0.8 <=? hunt_roll g)%float = true →
          hunted (hunt_roll g) self (schedule m)
          = <[self := mkWarrior (unique_id a) (id a)
                        (binary64_round (xp a + 2)) (strength a + 3)]>
              (schedule m)) as Hh.
  { intros Hu. unfold hunted, is_hunt_success. rewrite Hu.
    rewrite list_alter_alter_eq. by erewrite alter_as_insert. }
  split; [|split].
  - intros Hu. split.
    + rewrite hunt_run by done. unfold set_schedule.
      fold (hunt_roll g). by rewrite Hh.
    + unfold xp_exact. intros Hx. apply binary64_round_exact. lia.
  - intros Hu. rewrite hunt_run by done.
    unfold set_schedule, hunted, is_hunt_success.
    fold (hunt_roll g). rewrite Hu. by destruct m.
  - intros Hu Hv Hxp Hst. eexists _, _.
    unfold Warrior_step. rewrite bind_run, hunt_run by done.
    rewrite wrestle_skip by done.
    split; [done|]. cbn [schedule set_schedule snd].
    fold (hunt_roll g). rewrite Hh by done. rewrite Hxp, Hst. split.
    + by rewrite list_lookup_insert_eq.
    + intros p Hp. by rewrite list_lookup_insert_ne.
Qed.

End HuntClaims.

(** ** The scheduler *)

Section Keys.
Implicit Types (ags : list Warrior) (keys : list Z).

Lemma lookup_key_key_pos key ags :
  lookup_key key ags = key_pos (unique_id <$> ags) key.
Proof.
  unfold lookup_key, key_pos. rewrite list_find_fmap.
  by destruct (list_find _ ags) as [[??]|].
Qed.

Lemma key_pos_Some keys key p :
  key_pos keys key = Some p → keys !! p = Some key.
Proof.
  unfold key_pos. destruct (list_find _ keys) as [[i x]|] eqn:E; [|done].
  apply list_find_Some in E as (Hi & -> & _). simpl. by intros [= <-].
Qed.

Lemma key_pos_elem_of keys key :
  key ∈ keys → is_Some (key_pos keys key).
Proof.
  intros Hin. unfold key_pos.
  destruct (list_find_elem_of (λ x, x = key) keys key Hin eq_refl)
    as [[i x] ->].
  by eexists.
Qed.

Lemma key_pos_lookup keys key p :
  NoDup keys → keys !! p = Some key → key_pos keys key = Some p.
Proof.
  intros Hnd Hp.
  destruct (key_pos_elem_of keys key) as [q Hq].
  { by eapply list_elem_of_lookup_2. }
  rewrite Hq. f_equal.
  apply key_pos_Some in Hq.
  by eapply NoDup_lookup.
Qed.

Lemma key_pos_all keys :
  NoDup keys →
  (λ k, default 0 (key_pos keys k)) <$> keys = seq 0 (length keys).
Proof.
  intros Hnd. apply list_eq. intros i. rewrite list_lookup_fmap.
  destruct (keys !! i) as [k|] eqn:E; simpl.
  - rewrite (key_pos_lookup _ _ _ Hnd E). simpl. symmetry.
    apply lookup_seq. split; [done|]. by eapply lookup_lt_Some.
  - symmetry. apply lookup_ge_None. rewrite length_seq.
    by apply lookup_ge_None.
Qed.

Lemma grows_refl ags : Forall2 grows ags ags.
Proof. apply Forall_Forall2_diag, Forall_true. intros w. by repeat split. Qed.

Lemma grows_trans ags1 ags2 ags3 :
  Forall2 grows ags1 ags2 → Forall2 grows ags2 ags3 → Forall2 grows ags1 ags3.
Proof.
  intros H12 H23. eapply Forall2_trans; [|done..].
  intros w1 w2 w3 (?&?&?) (?&?&?). repeat split; [congruence..|lia].
Qed.

Lemma grows_keys ags ags' :
  Forall2 grows ags ags' → unique_id <$> ags' = unique_id <$> ags.
Proof.
  induction 1 as [|w w' ags ags' (Hk&_&_) _ IH]; [done|].
  rewrite !fmap_cons. by rewrite Hk, IH.
Qed.

End Keys.

Section Scheduler.
Context `{RandomSourceLaws G}.
Implicit Types (g : G) (m : Village) (ags : list Warrior) (keys : list Z).

Lemma Warrior_step_grows self g m :
  self < length (schedule m) →
  ∃ g' m',
    Warrior_step self (g, m) = Ok (tt, (g', m')) ∧
    num_agents m' = num_agents m ∧
    Forall2 grows (schedule m) (schedule m').
Proof.
  intros Hs.
  destruct (Warrior_step_pointwise self g m Hs)
    as (g' & m' & Hrun & Hn & Hlen & Hpt).
  exists g', m'. split; [done|]. split; [done|].
  apply Forall2_same_length_lookup_2; [done|].
  intros i w w' Hw Hw'.
  destruct (Hpt i w Hw) as (w1 & Hw1 & Hk & Hi & Hst & _).
  rewrite Hw' in Hw1. simplify_eq.
  repeat split; [done..|]. destruct Hst as [->|[_ ->]]; lia.
Qed.

(** The loop over the shuffled keys: every key that the dictionary holds
    has its agent activated, in the order of the keys. *)
Lemma agent_buffer_run keys : ∀ g m,
  (∀ k, k ∈ keys → k ∈ unique_id <$> schedule m) →
  ∃ g' m',
    agent_buffer keys (g, m)
    = Ok ((λ k, default 0 (key_pos (unique_id <$> schedule m) k)) <$> keys,
          (g', m')) ∧
    num_agents m' = num_agents m ∧
    Forall2 grows (schedule m) (schedule m').
Proof.
  induction keys as [|k rest IH]; intros g m Hin.
  - exists g, m. split; [done|]. split; [done|]. apply grows_refl.
  - cbn [agent_buffer]. rewrite bind_run. cbn [get_agents snd].
    rewrite lookup_key_key_pos.
    destruct (key_pos_elem_of (unique_id <$> schedule m) k) as [p Hp].
    { apply Hin. left. }
    rewrite Hp.
    assert (p < length (schedule m)) as Hlt.
    { apply key_pos_Some, lookup_lt_Some in Hp.
      by rewrite length_fmap in Hp. }
    destruct (Warrior_step_grows p g m Hlt) as (g1 & m1 & Hrun & Hn1 & Hg1).
    rewrite bind_run, Hrun.
    pose proof (grows_keys _ _ Hg1) as Hk1.
    destruct (IH g1 m1) as (g' & m' & Hrest & Hn' & Hg').
    { intros k' Hk'. rewrite Hk1. apply Hin. by right. }
    exists g', m'. rewrite bind_run, Hrest, Hk1.
    split; [|split].
    + rewrite fmap_cons, Hp. reflexivity.
    + congruence.
    + by eapply grows_trans.
Qed.

(** One tick. *)
Lemma RandomActivation_step_run g m :
  keys_unique m →
  ∃ g' m',
    RandomActivation_step (g, m)
    = Ok ((λ k, default 0 (key_pos (unique_id <$> schedule m) k))
            <$> (shuffle (unique_id <$> schedule m) g).1,
          (g', m')) ∧
    (λ k, default 0 (key_pos (unique_id <$> schedule m) k))
      <$> (shuffle (unique_id <$> schedule m) g).1
    ≡ₚ seq 0 (length (schedule m)) ∧
    num_agents m' = num_agents m ∧
    Forall2 grows (schedule m) (schedule m').
Proof.
  intros Hnd. unfold RandomActivation_step.
  rewrite bind_run. cbn [get_agents snd]. rewrite bind_run.
  unfold random_shuffle. cbn [fst snd].
  pose proof (shuffle_perm (unique_id <$> schedule m) g) as Hperm.
  destruct (shuffle (unique_id <$> schedule m) g) as [keys g1].
  cbn [fst] in *.
  destruct (agent_buffer_run keys g1 m) as (g' & m' & Hrun & Hn & Hg).
  { intros k Hk. by rewrite <-Hperm. }
  exists g', m'. split; [done|]. split; [|done].
  rewrite Hperm, key_pos_all by done. by rewrite length_fmap.
Qed.

Lemma keys_unique_grows m m' :
  keys_unique m → Forall2 grows (schedule m) (schedule m') → keys_unique m'.
Proof. unfold keys_unique. intros Hnd Hg. by rewrite (grows_keys _ _ Hg). Qed.

Lemma run_ticks_run T : ∀ g m,
  keys_unique m →
  ∃ g' m',
    run_ticks T (g, m) = Ok (tt, (g', m')) ∧
    num_agents m' = num_agents m ∧
    Forall2 grows (schedule m) (schedule m').
Proof.
  induction T as [|T IH]; intros g m Hnd.
  - exists g, m. split; [done|]. split; [done|]. apply grows_refl.
  - cbn [run_ticks]. rewrite bind_run. unfold Village_step.
    destruct (RandomActivation_step_run g m Hnd)
      as (g1 & m1 & -> & _ & Hn1 & Hg1).
    destruct (IH g1 m1) as (g' & m' & Hrun & Hn' & Hg').
    { by eapply keys_unique_grows. }
    exists g', m'. split; [done|]. split; [congruence|].
    by eapply grows_trans.
Qed.

End Scheduler.

(** ** Construction *)

Section Construction.
Context `{RandomSourceLaws G}.
Implicit Types (g : G) (m : Village) (ags : list Warrior).

Lemma newly_built_keys k ags :
  newly_built k ags → unique_id <$> ags = Z.of_nat <$> seq 0 k.
Proof.
  intros [Hlen Hpt]. apply list_eq. intros i. rewrite !list_lookup_fmap.
  destruct (ags !! i) as [w|] eqn:E; simpl.
  - destruct (Hpt i w E) as (-> & _).
    rewrite (lookup_seq_lt 0 k i); [done|].
    rewrite <-Hlen. by eapply lookup_lt_Some.
  - rewrite lookup_seq_ge; [done|]. rewrite <-Hlen. by apply lookup_ge_None.
Qed.

Lemma newly_built_unique m k :
  newly_built k (schedule m) → keys_unique m.
Proof.
  intros Hb. unfold keys_unique. rewrite (newly_built_keys _ _ Hb).
  apply NoDup_fmap_2; [apply _|apply NoDup_seq].
Qed.

Lemma newly_built_fresh k ags :
  newly_built k ags → lookup_key (Z.of_nat k) ags = None.
Proof.
  intros Hb. rewrite lookup_key_key_pos, (newly_built_keys _ _ Hb).
  unfold key_pos.
  destruct (list_find _ _) as [[i x]|] eqn:E; [|done].
  apply list_find_Some in E as (Hi & Hx & _).
  rewrite list_lookup_fmap in Hi.
  destruct (seq 0 k !! i) as [j|] eqn:Ej; simplify_eq/=.
  apply lookup_seq in Ej. lia.
Qed.

(** One turn of the constructor's loop. *)
Lemma add_Warrior_run k g m :
  newly_built k (schedule m) →
  ∃ g' ags',
    (agent ← Warrior_init (Z.of_nat k); schedule_add agent) (g, m)
    = Ok (tt, (g', mkVillage (num_agents m) ags')) ∧
    newly_built (S k) ags'.
Proof.
  intros Hb. pose proof Hb as [Hlen Hpt].
  rewrite bind_run. unfold Warrior_init. rewrite bind_run.
  unfold np_random_randint. cbn [fst snd].
  pose proof (randint_range 1 10 g) as Hr.
  destruct (randint 1 10 g) as [s g1]. cbn [fst] in Hr.
  cbn [mret M_ret]. unfold schedule_add. cbn [fst snd].
  unfold set_schedule, dict_set. cbn [unique_id].
  rewrite (newly_built_fresh _ _ Hb).
  eexists _, _. split; [done|]. split.
  - rewrite length_app. simpl. lia.
  - intros i w Hi. apply lookup_app_Some in Hi as [Hi|[Hge Hi]].
    + by apply Hpt.
    + rewrite Hlen in *. apply list_lookup_singleton_Some in Hi as [Hi <-].
      assert (i = k) as -> by lia. simpl. repeat split; lia.
Qed.

Lemma constructor_loop_run n : ∀ k g m,
  newly_built k (schedule m) →
  ∃ g' ags',
    for_each (Z.of_nat <$> seq k n)
      (λ i, agent ← Warrior_init i; schedule_add agent) (g, m)
    = Ok (tt, (g', mkVillage (num_agents m) ags')) ∧
    newly_built (k + n) ags'.
Proof.
  induction n as [|n IH]; intros k g m Hb.
  - exists g, (schedule m). rewrite Nat.add_0_r. split; [by destruct m|done].
  - cbn [seq fmap list_fmap for_each]. rewrite bind_run.
    destruct (add_Warrior_run k g m Hb) as (g1 & ags1 & -> & Hb1).
    destruct (IH (S k) g1 (mkVillage (num_agents m) ags1) Hb1)
      as (g' & ags' & Hrun & Hb').
    exists g', ags'. split; [done|]. by rewrite <-Nat.add_succ_comm.
Qed.

Lemma Village_init_run z g :
  ∃ g' m,
    Village_init (PyInt z) g = Ok (tt, (g', m)) ∧
    num_agents m = PyInt z ∧
    newly_built (Z.to_nat z) (schedule m).
Proof.
  unfold Village_init. rewrite bind_run. cbn [lift py_range].
  destruct (constructor_loop_run (Z.to_nat z) 0 g (mkVillage (PyInt z) []))
    as (g' & ags' & Hrun & Hb).
  { split; [done|]. intros i w Hi. by destruct i. }
  eexists _, _. split; [exact Hrun|]. split; done.
Qed.

End Construction.

(** ** The population, the ticks and the whole run *)

Section RunClaims.
Context `{RandomSourceLaws G}.
Implicit Types (g : G) (m : Village) (ags : list Warrior).

(** C5.  Constructing the model with an integer [z] returns a population
    of [max z 0] agents (none for a negative [z]); the agent created in
    turn [i] sits at position [i] and carries the key [i], the keys are
    those of [range(z)] in order, every xp is 1 and every strength is an
    integer from 1 to 9. *)
Theorem construction_initial_state z g :
  ∃ g' m,
    Village_init (PyInt z) g = Ok (tt, (g', m)) ∧
    length (schedule m) = Z.to_nat z ∧
    Ok (unique_id <$> schedule m) = py_range (PyInt z) ∧
    ∀ i w, schedule m !! i = Some w →
      xp w = 1%Z ∧ (1 ≤ strength w ≤ 9)%Z ∧
      unique_id w = Z.of_nat i ∧ id w = Z.of_nat i.
Proof.
  destruct (Village_init_run z g) as (g' & m & Hrun & _ & Hb).
  exists g', m. split; [done|]. split; [by destruct Hb|].
  split; [by rewrite (newly_built_keys _ _ Hb)|].
  intros i w Hi. destruct Hb as [_ Hpt].
  destruct (Hpt i w Hi) as (?&?&?&?). done.
Qed.

Lemma activation_order_keys (K keys : list Z) :
  (∀ k, k ∈ keys → k ∈ K) →
  (λ p, K !! p) <$> ((λ k, default 0 (key_pos K k)) <$> keys)
  = Some <$> keys.
Proof.
  induction keys as [|k keys IH]; intros Hin; [done|].
  rewrite !fmap_cons, IH by (intros ??; apply Hin; by right).
  f_equal. destruct (key_pos_elem_of K k) as [p Hp]; [apply Hin; left|].
  rewrite Hp. simpl. by apply key_pos_Some.
Qed.

Lemma count_occ_once (log : list nat) n p :
  log ≡ₚ seq 0 n → p < n → count_occ Nat.eq_dec log p = 1.
Proof.
  intros Hperm Hp.
  rewrite (Permutation_count_occ Nat.eq_dec log (seq 0 n)) in Hperm.
  rewrite Hperm.
  apply (proj1 (List.NoDup_count_occ' Nat.eq_dec (seq 0 n))).
  - apply List.seq_NoDup.
  - apply List.in_seq. lia.
Qed.


(** C8.  No activation lowers a strength: after an activation every
    agent's strength is what it was or, for the acting agent after a
    successful hunt, 3 more.  Hence over any number of ticks every
    strength is at least what it was, and in a whole run, from
    construction to read-out, every strength read out is a positive
    integer. *)
Theorem strength_never_decreases :
  (∀ g m self, self < length (schedule m) →
     ∃ g' m',
       Warrior_step self (g, m) = Ok (tt, (g', m')) ∧
       ∀ p w, schedule m !! p = Some w →
         ∃ w', schedule m' !! p = Some w' ∧
           (strength w ≤ strength w')%Z ∧
           (strength w' = strength w
            ∨ p = self ∧ is_hunt_success (hunt_roll g) = true
              ∧ strength w' = (strength w + 3)%Z)) ∧
  (∀ T g m, keys_unique m →
     ∃ g' m',
       run_ticks T (g, m) = Ok (tt, (g', m')) ∧
       ∀ p w, schedule m !! p = Some w →
         ∃ w', schedule m' !! p = Some w' ∧ (strength w ≤ strength w')%Z) ∧
  (∀ z T g,
     ∃ out,
       simulate (PyInt z) T g = Ok out ∧
       length out = Z.to_nat z ∧
       ∀ x s, (x, s) ∈ out → (1 ≤ s)%Z).
Proof.
  split; [|split].
  - intros g m self Hs.
    destruct (Warrior_step_pointwise self g m Hs)
      as (g' & m' & Hrun & _ & _ & Hpt).
    exists g', m'. split; [done|]. intros p w Hp.
    destruct (Hpt p w Hp) as (w' & Hp' & _ & _ & Hst & _).
    exists w'. split; [done|].
    destruct Hst as [Hst|[-> Hst]]; rewrite Hst; split; try lia; auto.
    right. split; [done|]. split; [|done].
    (* the strength moved, so the hunt succeeded *)
    pose proof (Warrior_step_run self g m Hs) as Hrun'.
    destruct (is_hunt_success (hunt_roll g)) eqn:Hu; [done|].
    exfalso.
    assert (strength <$> schedule m' !! self = Some (strength w)) as Hsame.
    { rewrite Hrun in Hrun'. unfold hunted in Hrun'. rewrite Hu in Hrun'.
      destruct (do_wrestle (wrestle_roll g)); simplify_eq/=.
      - destruct (wrestled_fields self
                    (opponent_pick (length (schedule m)) g)
                    (schedule m) self w Hp) as (w1 & -> & _ & _ & Hst1 & _).
        simpl. by rewrite Hst1.
      - by rewrite Hp. }
    rewrite Hp' in Hsame. simplify_eq/=. lia.
  - intros T g m Hnd.
    destruct (run_ticks_run T g m Hnd) as (g' & m' & Hrun & _ & Hg).
    exists g', m'. split; [done|]. intros p w Hp.
    destruct (Forall2_lookup_l _ _ _ _ _ Hg Hp) as (w' & Hp' & _ & _ & Hle).
    by exists w'.
  - intros z T g. unfold simulate.
    destruct (Village_init_run z g) as (g0 & m0 & -> & _ & Hb).
    pose proof (newly_built_unique _ _ Hb) as Hnd0.
    destruct (run_ticks_run T g0 m0 Hnd0) as (g1 & m1 & -> & _ & Hg).
    eexists. split; [done|]. unfold read_out. cbn [snd]. split.
    + rewrite length_fmap, <-(Forall2_length _ _ _ Hg). by destruct Hb.
    + intros x s Hin. apply list_elem_of_fmap in Hin as (w' & [= -> ->] & Hin).
      apply list_elem_of_lookup in Hin as [i Hi].
      destruct (Forall2_lookup_r _ _ _ _ _ Hg Hi) as (w & Hw & _ & _ & Hle).
      destruct Hb as [_ Hpt]. destruct (Hpt i w Hw) as (_ & _ & _ & Hst).
      lia.
Qed.

End RunClaims.

Section ArgumentClaims.
Context `{RandomSource G}.

(** C4, as the code has it.  The constructor does not check its
    argument.  An integer that is zero or negative is accepted: no agent
    is created, no draw is made, and the model is returned with an empty
    population.  An argument that is not an integer is refused by
    [range] with [TypeError], before any agent is created. *)
Theorem Village_init_argument (g : G) :
  (∀ z, (z ≤ 0)%Z →
     Village_init (PyInt z) g = Ok (tt, (g, mkVillage (PyInt z) []))) ∧
  (∀ n, (∀ z, n ≠ PyInt z) → Village_init n g = Raise TypeError).
Proof.
  split.
  - intros z Hz. unfold Village_init. rewrite bind_run. cbn [lift py_range].
    by replace (Z.to_nat z) with 0 by lia.
  - intros n Hn. unfold Village_init. rewrite bind_run.
    destruct n; try done. by destruct (Hn z).
Qed.

End ArgumentClaims.

(** ** The scripted sources obey the laws *)

#[export] Instance Tape_laws : RandomSourceLaws Tape.
Proof.
  split.
  - intros lo hi t Hlt. cbn.
    pose proof (Z.mod_pos_bound (hd 0%Z (ints t)) (hi - lo)). lia.
  - intros n t Hn. cbn. apply Nat.mod_upper_bound. lia.
  - intros l t. cbn. unfold rotate.
    rewrite Permutation_app_comm. by rewrite take_drop.
Qed.

(** ** The scenarios, evaluated *)

(** The thresholds are inclusive for the hunt and exclusive for the
    wrestle, on the binary64 values nearest to 0.8 and 0.85. *)
Example hunt_threshold :
  is_hunt_success 0.8 = true ∧ is_hunt_success 0.7999999999999999 = false ∧
  do_wrestle 0.85 = false ∧ do_wrestle 0.8500000000000001 = true.
Proof. repeat split; reflexivity. Qed.

(** Hunt roll 0.9, wrestle roll 0.5, xp 1 and strength 5: xp 3 and strength
    8, nobody else touched. *)
Example hunt_only_scenario :
  Warrior_step 0 (tape_hunt_only, sample_village)
  = Ok (tt, (mkTape [] [] [] [],
             mkVillage (PyInt 3)
               [mkWarrior 0 0 3 8; mkWarrior 1 1 1 7; mkWarrior 2 2 1 5])).
Proof. reflexivity. Qed.

(** Strength 5 against 7: the acting agent loses 2, the opponent gains 1. *)
Example lost_contest_scenario :
  Warrior_step 0 (tape_wrestle 1, sample_village)
  = Ok (tt, (mkTape [] [] [] [],
             mkVillage (PyInt 3)
               [mkWarrior 0 0 (-1) 5; mkWarrior 1 1 2 7; mkWarrior 2 2 1 5])).
Proof. reflexivity. Qed.

(** Strength 5 against 5: the acting agent wins the tie. *)
Example tie_scenario :
  Warrior_step 0 (tape_wrestle 2, sample_village)
  = Ok (tt, (mkTape [] [] [] [],
             mkVillage (PyInt 3)
               [mkWarrior 0 0 2 5; mkWarrior 1 1 1 7; mkWarrior 2 2 (-1) 5])).
Proof. reflexivity. Qed.

(** The agent picks itself: no exception, xp 1 becomes 0. *)
Example self_contest_scenario :
  Warrior_step 0 (tape_wrestle 0, sample_village)
  = Ok (tt, (mkTape [] [] [] [],
             mkVillage (PyInt 3)
               [mkWarrior 0 0 0 5; mkWarrior 1 1 1 7; mkWarrior 2 2 1 5])).
Proof. reflexivity. Qed.

(** The wrestle compares the strengths it finds: an agent of strength 5
    whose hunt has just succeeded meets an opponent of strength 6 with
    strength 8, and wins. *)
Example hunt_then_wrestle_scenario :
  Warrior_step 0
    (mkTape [0.9; 0.9]%float [] [1] [],
     mkVillage (PyInt 2) [mkWarrior 0 0 1 5; mkWarrior 1 1 1 6])
  = Ok (tt, (mkTape [] [] [] [],
             mkVillage (PyInt 2) [mkWarrior 0 0 4 8; mkWarrior 1 1 (-1) 6])).
Proof. reflexivity. Qed.

(** A run of two ticks over three agents. *)
Example run_scenario :
  simulate (PyInt 3) 2 tape_run = Ok [(-2, 8); (5, 15); (3, 12)]%Z.
Proof. reflexivity. Qed.

(** [binary64_round] against the binary64 addition of the kernel, where
    binary64 is not exact: 2^53 + 1 and 2^54 + 2 stay, 2^53 + 3 goes up to
    2^53 + 4, 2^54 - 1 goes up to 2^54, and likewise below zero. *)
Example binary64_round_agrees :
  Forall (λ '(x, d),
            Sampling.float_of_Z (binary64_round (x + d))
            = (Sampling.float_of_Z x + Sampling.float_of_Z d)%float)
    [(2 ^ 53, 1); (2 ^ 53 + 2, 1); (2 ^ 53, -2); (2 ^ 53 + 2, -2);
     (2 ^ 54, 2); (2 ^ 54, 1); (2 ^ 54, -1); (2 ^ 54, -2); (2 ^ 54 + 4, 2);
     (- 2 ^ 53, -1); (- 2 ^ 53, -2); (- 2 ^ 53 - 2, -1); (- 2 ^ 54, -2);
     (2 ^ 53 - 1, 1); (2 ^ 53 - 1, 2); (2 ^ 60, 1); (7, -2)]%Z.
Proof. repeat constructor. Qed.

(** C1, the claim as stated fails where binary64 is not exact.  The
    acting agent has xp 2^53 and wins a tie (strength 5 against 5): the
    opponent's xp goes from 1 to -1, but [2^53 + 1.] is 2^53 in binary64
    and the winner's xp does not rise. *)
Lemma winner_xp_stays_at_2_53 :
  Warrior_step 0 (tape_wrestle 1, village_with_xp (2 ^ 53))
  = Ok (tt, (mkTape [] [] [] [],
             mkVillage (PyInt 2)
               [mkWarrior 0 0 (2 ^ 53) 5; mkWarrior 1 1 (-1) 5])) ∧
  do_wrestle (wrestle_roll (tape_wrestle 1)) = true ∧
  opponent_pick 2 (tape_wrestle 1) = 1 ∧
  (2 ^ 53 ≠ 2 ^ 53 + 1)%Z.
Proof. repeat split; [reflexivity..|lia]. Qed.

(** C2, the claim as stated fails where binary64 is not exact.  The hunt
    succeeds (roll 0.9) for an agent with xp 2^54: its strength goes from 5
    to 8, but [2^54 + 2.] is 2^54 in binary64 and its xp does not move. *)
Lemma hunt_adds_nothing_at_2_54 :
  hunt 0 (tape_hunt_only, village_with_xp (2 ^ 54))
  = Ok (tt, (mkTape [0.5]%float [] [] [],
             mkVillage (PyInt 2)
               [mkWarrior 0 0 (2 ^ 54) 8; mkWarrior 1 1 1 5])) ∧
  is_hunt_success (hunt_roll tape_hunt_only) = true ∧
  (2 ^ 54 ≠ 2 ^ 54 + 2)%Z.
Proof. repeat split; [reflexivity..|lia]. Qed.

(** C3, the claim as stated fails where binary64 is not exact.  The
    acting agent has xp 2^53 + 2 and picks itself: [-= 2.] gives 2^53 and
    [+= 1.] leaves 2^53, a net change of -2 and not of -1. *)
Lemma self_contest_costs_2_above_2_53 :
  Warrior_step 0 (tape_wrestle 0, village_with_xp (2 ^ 53 + 2))
  = Ok (tt, (mkTape [] [] [] [],
             mkVillage (PyInt 2)
               [mkWarrior 0 0 (2 ^ 53) 5; mkWarrior 1 1 1 5])) ∧
  do_wrestle (wrestle_roll (tape_wrestle 0)) = true ∧
  opponent_pick 2 (tape_wrestle 0) = 0 ∧
  (2 ^ 53 - (2 ^ 53 + 2) = -2)%Z.
Proof. repeat split; reflexivity. Qed.


(** C4, the claim as stated fails: a negative population size is not
    refused.  [Village(-1)] returns a model with an empty population, on
    which ticks run and the read-out is empty. *)
Lemma negative_size_is_accepted :
  Village_init (PyInt (-1)) tape_run
  = Ok (tt, (tape_run, mkVillage (PyInt (-1)) [])) ∧
  simulate (PyInt (-1)) 2 tape_run = Ok [] ∧
  ¬ ∃ e, Village_init (PyInt (-1)) tape_run = Raise e.
Proof.
  split; [reflexivity|]. split; [reflexivity|]. intros [e He]. discriminate He.
Qed.

(** ** The theorems at the sample data *)

(** [wrestle_outcome] at the lost contest: strength 5 against 7. *)
Lemma wrestle_outcome_witness :
  0 < length (schedule sample_village) ∧
  do_wrestle (wrestle_roll (tape_wrestle 1)) = true ∧
  ∃ g' m',
    Warrior_step 0 (tape_wrestle 1, sample_village) = Ok (tt, (g', m')) ∧
    xp <$> schedule m' !! 0 = Some (-1)%Z ∧
    xp <$> schedule m' !! 1 = Some 2%Z.
Proof.
  split; [simpl; lia|]. split; [reflexivity|].
  destruct (wrestle_outcome (tape_wrestle 1) sample_village 0)
    as (a & b & g' & m' & Hall); [simpl; lia|reflexivity|].
  cbv zeta in Hall. destruct Hall as (_ & Ha & Hb & Hrun & Hlose & _).
  vm_compute in Ha, Hb. injection Ha as <-. injection Hb as <-.
  destruct Hlose as (_ & _ & _ & Hexact); [simpl; lia|].
  destruct Hexact as [H0 H1]; [unfold xp_exact; simpl; lia..|].
  exists g', m'. split; [exact Hrun|]. split; [exact H0|exact H1].
Defined.

(** [hunt_phase] at the hunt without wrestle. *)
Lemma hunt_phase_witness :
  schedule sample_village !! 0 = Some (mkWarrior 0 0 1 5) ∧
  hunt 0 (tape_hunt_only, sample_village)
  = Ok (tt, (mkTape [0.5]%float [] [] [],
             mkVillage (PyInt 3)
               [mkWarrior 0 0 3 8; mkWarrior 1 1 1 7; mkWarrior 2 2 1 5])) ∧
  ∃ g' m',
    Warrior_step 0 (tape_hunt_only, sample_village) = Ok (tt, (g', m')) ∧
    schedule m' !! 0 = Some (mkWarrior 0 0 3 8) ∧
    ∀ p, p ≠ 0 → schedule m' !! p = schedule sample_village !! p.
Proof.
  split; [reflexivity|].
  destruct (hunt_phase tape_hunt_only sample_village 0 (mkWarrior 0 0 1 5))
    as (Hyes & _ & Hscenario); [reflexivity|].
  split; [exact (proj1 (Hyes eq_refl))|].
  exact (Hscenario eq_refl eq_refl eq_refl eq_refl).
Defined.

(** [self_contest] at the first agent picking itself. *)
Lemma self_contest_witness :
  0 < length (schedule sample_village) ∧
  do_wrestle (wrestle_roll (tape_wrestle 0)) = true ∧
  opponent_pick (length (schedule sample_village)) (tape_wrestle 0) = 0 ∧
  ∃ g' m',
    Warrior_step 0 (tape_wrestle 0, sample_village) = Ok (tt, (g', m')) ∧
    schedule m' !! 0 = Some (mkWarrior 0 0 0 5) ∧
    ∀ p, p ≠ 0 → schedule m' !! p = schedule sample_village !! p.
Proof.
  split; [simpl; lia|]. split; [reflexivity|]. split; [reflexivity|].
  destruct (self_contest (tape_wrestle 0) sample_village 0)
    as (a0 & a & g' & m' & Ha0 & Ha & _ & Hrun & _ & _ & Hself & Hrest);
    [simpl; lia|reflexivity|reflexivity|].
  vm_compute in Ha0. injection Ha0 as <-. vm_compute in Ha. subst a.
  exists g', m'. split; [exact Hrun|]. split; [|exact Hrest].
  apply Hself. unfold xp_exact. simpl. lia.
Defined.

(** [Village_init_argument] at the sizes -2, 2.5 and None. *)
Lemma Village_init_argument_witness :
  Village_init (PyInt (-2)) tape_run
  = Ok (tt, (tape_run, mkVillage (PyInt (-2)) [])) ∧
  Village_init (PyFloat 2.5) tape_run = Raise TypeError ∧
  Village_init PyNone tape_run = Raise TypeError.
Proof.
  destruct (Village_init_argument tape_run) as [Hneg Hbad].
  split; [apply Hneg; lia|]. split; apply Hbad; intros z; discriminate.
Defined.

(** [construction_initial_state] at a population of three. *)
Lemma construction_initial_state_witness :
  ∃ g' m,
    Village_init (PyInt 3) tape_run = Ok (tt, (g', m)) ∧
    length (schedule m) = Z.to_nat 3 ∧
    Ok (unique_id <$> schedule m) = py_range (PyInt 3) ∧
    ∀ i w, schedule m !! i = Some w →
      xp w = 1%Z ∧ (1 ≤ strength w ≤ 9)%Z ∧
      unique_id w = Z.of_nat i ∧ id w = Z.of_nat i.
Proof. exact (construction_initial_state 3 tape_run). Defined.


(** [activation_frame] at the second agent wrestling the third: the first
    agent keeps its record. *)
Lemma activation_frame_witness :
  1 < length (schedule sample_village) ∧
  ∃ g' m',
    Warrior_step 1 (tape_wrestle 2, sample_village) = Ok (tt, (g', m')) ∧
    num_agents m' = PyInt 3 ∧
    length (schedule m') = 3 ∧
    schedule m' !! 0 = Some (mkWarrior 0 0 1 5).
Proof.
  split; [simpl; lia|].
  destruct (activation_frame (tape_wrestle 2) sample_village 1)
    as (g' & m' & Hrun & Hn & Hlen & Hpt); [simpl; lia|].
  exists g', m'. split; [exact Hrun|]. split; [exact Hn|]. split; [exact Hlen|].
  destruct (Hpt 0 (mkWarrior 0 0 1 5) eq_refl)
    as (w' & Hw' & _ & _ & _ & Hsame).
  rewrite Hw'. f_equal. apply Hsame; [lia|]. right. vm_compute. lia.
Defined.

(** [strength_never_decreases] at a successful hunt and at a run of two
    ticks. *)
Lemma strength_never_decreases_witness :
  (∃ g' m',
     Warrior_step 0 (tape_hunt_only, sample_village) = Ok (tt, (g', m')) ∧
     ∃ w', schedule m' !! 0 = Some w' ∧ (5 ≤ strength w')%Z) ∧
  (∃ out,
     simulate (PyInt 3) 2 tape_run = Ok out ∧
     length out = 3 ∧
     ∀ x s, (x, s) ∈ out → (1 ≤ s)%Z).
Proof.
  destruct (strength_never_decreases (G := Tape)) as (Hact & _ & Hrun).
  split.
  - destruct (Hact tape_hunt_only sample_village 0)
      as (g' & m' & Hstep & Hpt); [simpl; lia|].
    exists g', m'. split; [exact Hstep|].
    destruct (Hpt 0 (mkWarrior 0 0 1 5) eq_refl) as (w' & Hw' & Hle & _).
    exists w'. split; [exact Hw'|exact Hle].
  - exact (Hrun 3%Z 2 tape_run).
Defined.


(** ** Ticks as traces of activations *)

Section Traces.
Context `{RandomSourceLaws G}.
Implicit Types (g : G) (m : Village) (ags : list Warrior) (w : G * Village).

Lemma total_strength_alter d i ags :
  i < length ags →
  total_strength (alter (add_strength d) i ags) = (total_strength ags + d)%Z.
Proof.
  unfold total_strength, alter. revert i.
  induction ags as [|a ags IH]; intros [|i] Hi; simpl in *; try lia.
  rewrite IH by lia. lia.
Qed.

Lemma total_strength_alter_xp d i ags :
  total_strength (alter (add_xp d) i ags) = total_strength ags.
Proof.
  unfold total_strength, alter. revert i.
  induction ags as [|a ags IH]; intros [|i]; simpl; try done.
  by rewrite IH.
Qed.

(** The summed strength across one activation. *)
Lemma Warrior_step_total_strength self g m :
  self < length (schedule m) →
  ∃ g' m',
    Warrior_step self (g, m) = Ok (tt, (g', m')) ∧
    total_strength (schedule m')
    = (total_strength (schedule m)
       + (if is_hunt_success (hunt_roll g) then 3 else 0))%Z.
Proof.
  intros Hs.
  assert (∀ other ags,
            total_strength (wrestled self other ags) = total_strength ags)
    as Hwr.
  { intros other ags. unfold wrestled.
    destruct (ags !! self), (ags !! other); try done.
    destruct (_ <? _)%Z; by rewrite !total_strength_alter_xp. }
  assert (total_strength (hunted (hunt_roll g) self (schedule m))
          = (total_strength (schedule m)
             + if is_hunt_success (hunt_roll g) then 3 else 0)%Z) as Hhu.
  { unfold hunted. destruct (is_hunt_success _); [|lia].
    rewrite total_strength_alter by (by rewrite length_alter).
    by rewrite total_strength_alter_xp. }
  rewrite Warrior_step_run by done.
  destruct (do_wrestle (wrestle_roll g)); eexists _, _;
    (split; [done|]); cbn [schedule set_schedule snd];
    by rewrite ?Hwr, Hhu.
Qed.

(** While the updates are exact, one activation moves an agent's xp by -2
    at least, and by 1 at most, or 3 for the acting agent. *)
Lemma Warrior_step_xp_range self g m :
  self < length (schedule m) →
  Forall xp_exact (schedule m) →
  ∃ g' m',
    Warrior_step self (g, m) = Ok (tt, (g', m')) ∧
    ∀ p a, schedule m !! p = Some a →
      ∃ a', schedule m' !! p = Some a' ∧
        (-2 ≤ xp a' - xp a ≤ 1 + bump self 2 p)%Z.
Proof.
  intros Hs Hall.
  set (n := length (schedule m)).
  assert (opponent_pick n g < n) as Ho
    by (unfold opponent_pick; apply choice_range; lia).
  set (ags := hunted (hunt_roll g) self (schedule m)).
  assert (length ags = n) as Hlen by apply length_hunted.
  destruct (lookup_lt_is_Some_2 ags self) as [a_s Ha]; [lia|].
  destruct (lookup_lt_is_Some_2 ags (opponent_pick n g)) as [a_o Hb]; [lia|].
  pose proof (hunted_xp_range _ _ _ _ _ Hall Ha) as Hxs.
  pose proof (hunted_xp_range _ _ _ _ _ Hall Hb) as Hxo.
  assert (∀ p a, schedule m !! p = Some a →
            ∃ a1, ags !! p = Some a1 ∧
                  (0 ≤ xp a1 - xp a ≤ bump self 2 p)%Z) as Hhunt.
  { intros p a Hp. unfold bump. destruct (decide (self = p)) as [<-|Hne].
    - unfold ags. rewrite (hunted_lookup_self _ _ _ _ Hp).
      eexists. split; [done|].
      pose proof (proj1 (Forall_lookup _ _) Hall _ _ Hp) as Hx.
      unfold xp_exact in Hx.
      destruct (is_hunt_success _); [|lia].
      simpl. rewrite binary64_round_exact; lia.
    - unfold ags. rewrite hunted_lookup_ne by done. exists a.
      split; [done|]. lia. }
  rewrite Warrior_step_run by done.
  destruct (do_wrestle (wrestle_roll g)).
  - eexists _, _. split; [done|]. cbn [schedule set_schedule snd].
    fold n. fold ags. intros p a Hp.
    destruct (Hhunt p a Hp) as (a1 & Hp1 & Hx1).
    rewrite (wrestled_lookup _ _ _ _ _ _ Ha Hb).
    revert Hx1. unfold bump.
    destruct (_ <? _)%Z; repeat case_decide; simplify_eq;
      intros Hx1; eexists; (split; [done|]); simpl;
      rewrite ?binary64_round_exact; simpl;
      rewrite ?binary64_round_exact; lia.
  - eexists _, _. split; [done|]. cbn [schedule set_schedule snd].
    fold ags. intros p a Hp.
    destruct (Hhunt p a Hp) as (a1 & Hp1 & Hx1).
    exists a1. split; [done|]. lia.
Qed.

(** One activation on a population whose xp are within [B], with room for
    three more: nothing is rounded. *)
Lemma Warrior_step_exact self g m B :
  self < length (schedule m) →
  xp_bounded B (schedule m) →
  (B + 3 ≤ 2 ^ 53)%Z →
  ∃ g' m',
    Warrior_step self (g, m) = Ok (tt, (g', m')) ∧
    xp_bounded (B + 3) (schedule m') ∧
    total_xp (schedule m')
    = (total_xp (schedule m)
       + (if is_hunt_success (hunt_roll g) then 2 else 0)
       - (if do_wrestle (wrestle_roll g) then 1 else 0))%Z ∧
    total_strength (schedule m')
    = (total_strength (schedule m)
       + (if is_hunt_success (hunt_roll g) then 3 else 0))%Z ∧
    ∀ p a, schedule m !! p = Some a →
      ∃ a', schedule m' !! p = Some a' ∧
        (-2 ≤ xp a' - xp a ≤ 1 + bump self 2 p)%Z.
Proof.
  intros Hs HB Hroom.
  assert (Forall xp_exact (schedule m)) as Hall.
  { eapply Forall_impl; [exact HB|]. intros a Ha. cbv beta in Ha.
    unfold xp_exact. lia. }
  destruct (Warrior_step_xp_range self g m Hs Hall) as (g' & m' & Hrun & Hpt).
  destruct (Warrior_step_total_xp self g m Hs Hall) as (g1 & m1 & E1 & Hx).
  destruct (Warrior_step_total_strength self g m Hs) as (g2 & m2 & E2 & Hst).
  destruct (Warrior_step_pointwise self g m Hs)
    as (g3 & m3 & E3 & _ & Hlen & _).
  rewrite Hrun in E1, E2, E3. simplify_eq.
  eexists _, _. split; [exact Hrun|]. split; [|by repeat split].
  apply Forall_lookup. intros p a' Hp'.
  destruct (lookup_lt_is_Some_2 (schedule m) p) as [a Ha].
  { rewrite <-Hlen. by eapply lookup_lt_Some. }
  destruct (Hpt p a Ha) as (a'' & Hp'' & Hr).
  rewrite Hp' in Hp''. simplify_eq.
  pose proof (proj1 (Forall_lookup _ _) HB _ _ Ha) as Hxa. cbv beta in Hxa.
  revert Hr. unfold bump. case_decide; lia.
Qed.

(** The loop of the scheduler leaves the trace of its activations. *)
Lemma agent_buffer_activations keys : ∀ g m log w',
  (∀ k, k ∈ keys → k ∈ unique_id <$> schedule m) →
  agent_buffer keys (g, m) = Ok (log, w') →
  activations log (g, m) w'.
Proof.
  induction keys as [|k rest IH]; intros g m log w' Hin Hrun.
  - cbn [agent_buffer] in Hrun. unfold mret, M_ret in Hrun. simplify_eq.
    constructor.
  - cbn [agent_buffer] in Hrun. rewrite bind_run in Hrun.
    cbn [get_agents snd] in Hrun. rewrite lookup_key_key_pos in Hrun.
    destruct (key_pos_elem_of (unique_id <$> schedule m) k) as [p Hp].
    { apply Hin. left. }
    rewrite Hp in Hrun.
    assert (p < length (schedule m)) as Hlt.
    { apply key_pos_Some, lookup_lt_Some in Hp.
      by rewrite length_fmap in Hp. }
    destruct (Warrior_step_grows p g m Hlt) as (g1 & m1 & Hstep & _ & Hg1).
    rewrite bind_run, Hstep, bind_run in Hrun.
    destruct (agent_buffer rest (g1, m1)) as [[log' w'']|e] eqn:Hrest;
      [|done].
    unfold mret, M_ret in Hrun. simplify_eq.
    eapply activations_cons; [done|exact Hstep|].
    apply IH; [|done].
    intros k' Hk'. rewrite (grows_keys _ _ Hg1). apply Hin. by right.
Qed.

(** One tick: the shuffle, then a trace over a permutation of the
    population. *)
Lemma Village_step_trace g m :
  keys_unique m →
  ∃ log g' m',
    Village_step (g, m) = Ok (log, (g', m')) ∧
    log ≡ₚ seq 0 (length (schedule m)) ∧
    activations log ((shuffle (unique_id <$> schedule m) g).2, m) (g', m') ∧
    Forall2 grows (schedule m) (schedule m').
Proof.
  intros Hnd.
  destruct (RandomActivation_step_run g m Hnd)
    as (g' & m' & Hrun & Hperm & _ & Hg).
  eexists _, g', m'. split; [exact Hrun|]. split; [done|]. split; [|done].
  unfold RandomActivation_step in Hrun.
  rewrite bind_run in Hrun. cbn [get_agents snd] in Hrun.
  rewrite bind_run in Hrun. unfold random_shuffle in Hrun.
  cbn [fst snd] in Hrun.
  pose proof (shuffle_perm (unique_id <$> schedule m) g) as Hsh.
  destruct (shuffle (unique_id <$> schedule m) g) as [keys g1].
  cbn [fst snd] in *.
  eapply agent_buffer_activations; [|exact Hrun].
  intros k Hk. by rewrite <-Hsh.
Qed.

Lemma activations_shape log w w' :
  activations log w w' →
  num_agents w'.2 = num_agents w.2 ∧
  length (schedule w'.2) = length (schedule w.2).
Proof.
  induction 1 as [w|self log [g m] w1 w2 Hs Hstep _ [IHn IHl]]; [done|].
  cbn [snd] in *.
  destruct (Warrior_step_pointwise self g m Hs)
    as (g1 & m1 & E & Hn & Hl & _).
  rewrite E in Hstep. simplify_eq. cbn [snd] in *. split; congruence.
Qed.

(** A property of the run follows from its instances at each tick. *)
Lemma run_ticks_induction (P : nat → G * Village → G * Village → Prop) :
  (∀ w, P 0 w w) →
  (∀ T g m log w1 w2,
     keys_unique m →
     log ≡ₚ seq 0 (length (schedule m)) →
     activations log ((shuffle (unique_id <$> schedule m) g).2, m) w1 →
     P T w1 w2 → P (S T) (g, m) w2) →
  ∀ T g m, keys_unique m →
    ∃ w', run_ticks T (g, m) = Ok (tt, w') ∧ P T (g, m) w'.
Proof.
  intros Hbase Hstep. induction T as [|T IH]; intros g m Hnd.
  - exists (g, m). split; [done|]. apply Hbase.
  - cbn [run_ticks]. rewrite bind_run.
    destruct (Village_step_trace g m Hnd)
      as (log & g1 & m1 & -> & Hperm & Htrace & Hg).
    destruct (IH g1 m1) as (w' & Hrun & HP).
    { by eapply keys_unique_grows. }
    exists w'. split; [done|]. by eapply Hstep.
Qed.

End Traces.

(** ** What a run keeps and what it accounts for *)

Section RunProperties.
Context `{RandomSourceLaws G}.
Implicit Types (g : G) (m : Village) (ags : list Warrior) (w : G * Village).

Lemma grows_ids ags ags' :
  Forall2 grows ags ags' → id <$> ags' = id <$> ags.
Proof.
  induction 1 as [|a a' ags ags' (_&Hi&_) _ IH]; [done|].
  rewrite !fmap_cons. by rewrite Hi, IH.
Qed.

Lemma newly_built_ids k ags :
  newly_built k ags → id <$> ags = Z.of_nat <$> seq 0 k.
Proof.
  intros [Hlen Hpt]. apply list_eq. intros i. rewrite !list_lookup_fmap.
  destruct (ags !! i) as [a|] eqn:E; simpl.
  - destruct (Hpt i a E) as (_ & -> & _).
    rewrite (lookup_seq_lt 0 k i); [done|].
    rewrite <-Hlen. by eapply lookup_lt_Some.
  - rewrite lookup_seq_ge; [done|]. rewrite <-Hlen. by apply lookup_ge_None.
Qed.

(** X1.  A run never adds, removes, renumbers or reorders agents: after
    construction with the integer [z] and any number of ticks the model
    still holds [max z 0] agents, the agent at position [i] still carries
    the key [i] (as [unique_id] and as [id]), and the read-out has one pair
    per agent. *)
Theorem run_keeps_population z T g :
  ∃ w0 w1,
    Village_init (PyInt z) g = Ok (tt, w0) ∧
    run_ticks T w0 = Ok (tt, w1) ∧
    num_agents w1.2 = PyInt z ∧
    unique_id <$> schedule w1.2 = Z.of_nat <$> seq 0 (Z.to_nat z) ∧
    id <$> schedule w1.2 = Z.of_nat <$> seq 0 (Z.to_nat z) ∧
    length (read_out w1.2) = Z.to_nat z.
Proof.
  destruct (Village_init_run z g) as (g0 & m0 & Hinit & Hn0 & Hb).
  pose proof (newly_built_unique _ _ Hb) as Hnd0.
  destruct (run_ticks_run T g0 m0 Hnd0) as (g1 & m1 & Hrun & Hn1 & Hg).
  exists (g0, m0), (g1, m1). cbn [snd].
  split; [done|]. split; [done|]. split; [congruence|].
  split; [by rewrite (grows_keys _ _ Hg), (newly_built_keys _ _ Hb)|].
  split; [by rewrite (grows_ids _ _ Hg), (newly_built_ids _ _ Hb)|].
  unfold read_out. rewrite length_fmap, <-(Forall2_length _ _ _ Hg).
  by destruct Hb.
Qed.

Lemma activations_strength log w w' :
  activations log w w' →
  ∀ p a, schedule w.2 !! p = Some a →
    ∃ a' k, schedule w'.2 !! p = Some a' ∧
      (0 ≤ k ≤ Z.of_nat (count_occ Nat.eq_dec log p))%Z ∧
      strength a' = (strength a + 3 * k)%Z.
Proof.
  induction 1 as [w|self log [g m] w1 w2 Hs Hstep _ IH]; intros p a Hp.
  - exists a, 0%Z. split; [done|]. simpl. lia.
  - cbn [snd] in *.
    destruct (Warrior_step_pointwise self g m Hs)
      as (g1 & m1 & E & _ & _ & Hpt).
    rewrite E in Hstep. simplify_eq. cbn [snd] in *.
    destruct (Hpt p a Hp) as (a1 & Hp1 & _ & _ & Hst & _).
    destruct (IH p a1 Hp1) as (a' & k & Hp' & Hk & Hst').
    cbn [count_occ]. destruct (Nat.eq_dec self p) as [->|Hne].
    + destruct Hst as [Hst|[_ Hst]].
      * exists a', k. split; [done|]. split; lia.
      * exists a', (k + 1)%Z. split; [done|]. split; lia.
    + destruct Hst as [Hst|[-> _]]; [|done].
      exists a', k. split; [done|]. split; lia.
Qed.

(** X2.  Over [T] ticks every agent's strength grows by 3 times the number
    of its successful hunts, which is at most [T] since an agent hunts once
    per tick.  So a strength read out after [T] ticks lies between 1 and
    [9 + 3 T]. *)
Theorem strength_gain_bounded :
  (∀ T g m, keys_unique m →
     ∃ w', run_ticks T (g, m) = Ok (tt, w') ∧
       ∀ p a, schedule m !! p = Some a →
         ∃ a' k, schedule w'.2 !! p = Some a' ∧
           (0 ≤ k ≤ Z.of_nat T)%Z ∧
           strength a' = (strength a + 3 * k)%Z) ∧
  (∀ z T g,
     ∃ out, simulate (PyInt z) T g = Ok out ∧
       ∀ x s, (x, s) ∈ out → (1 ≤ s ≤ 9 + 3 * Z.of_nat T)%Z).
Proof.
  assert (∀ T g m, keys_unique m →
     ∃ w', run_ticks T (g, m) = Ok (tt, w') ∧
       ∀ p a, schedule m !! p = Some a →
         ∃ a' k, schedule w'.2 !! p = Some a' ∧
           (0 ≤ k ≤ Z.of_nat T)%Z ∧
           strength a' = (strength a + 3 * k)%Z) as Hticks.
  { intros T g m Hnd.
    apply (run_ticks_induction (λ T w w',
      ∀ p a, schedule w.2 !! p = Some a →
        ∃ a' k, schedule w'.2 !! p = Some a' ∧
          (0 ≤ k ≤ Z.of_nat T)%Z ∧
          strength a' = (strength a + 3 * k)%Z)); [| |done].
    - intros w p a Hp. exists a, 0%Z. split; [done|]. lia.
    - clear T g m Hnd. intros T g m log w1 w2 Hnd Hperm Htrace IH p a Hp.
      destruct (activations_strength _ _ _ Htrace p a Hp)
        as (a1 & k1 & Hp1 & Hk1 & Hst1).
      assert (p < length (schedule m)) as Hlt by (by eapply lookup_lt_Some).
      rewrite (count_occ_once log _ p Hperm Hlt) in Hk1.
      destruct (IH p a1 Hp1) as (a' & k & Hp' & Hk & Hst').
      exists a', (k1 + k)%Z. split; [done|]. split; lia. }
  split; [exact Hticks|].
  intros z T g. unfold simulate.
  destruct (Village_init_run z g) as (g0 & m0 & -> & _ & Hb).
  pose proof (newly_built_unique _ _ Hb) as Hnd0.
  destruct (run_ticks_run T g0 m0 Hnd0) as (g1 & m1 & Hrun & _ & Hg).
  destruct (Hticks T g0 m0 Hnd0) as (w' & Hrun' & Hpt).
  rewrite Hrun in Hrun'. simplify_eq. rewrite Hrun.
  eexists. split; [done|]. unfold read_out. cbn [snd] in *.
  intros x s Hin. apply list_elem_of_fmap in Hin as (a' & [= -> ->] & Hin).
  apply list_elem_of_lookup in Hin as [i Hi].
  assert (i < length (schedule m0)) as Hlt.
  { rewrite (Forall2_length _ _ _ Hg). by eapply lookup_lt_Some. }
  destruct (lookup_lt_is_Some_2 _ _ Hlt) as [a Ha].
  destruct (Hpt i a Ha) as (a'' & k & Hi' & Hk & Hst).
  rewrite Hi in Hi'. simplify_eq.
  destruct Hb as [_ Hb]. destruct (Hb i a Ha) as (_ & _ & _ & Hs0). lia.
Qed.

(** A trace over a population whose xp are within [B], with room for three
    more per activation: the bound after it, the count of hunts and
    wrestles behind the two totals, and the range of each agent's xp. *)
Lemma activations_exact log w w' :
  activations log w w' →
  ∀ B, xp_bounded B (schedule w.2) →
    (B + 3 * Z.of_nat (length log) ≤ 2 ^ 53)%Z →
    xp_bounded (B + 3 * Z.of_nat (length log)) (schedule w'.2) ∧
    (∃ Hn Wn : Z,
       (0 ≤ Hn ≤ Z.of_nat (length log))%Z ∧
       (0 ≤ Wn ≤ Z.of_nat (length log))%Z ∧
       total_xp (schedule w'.2)
       = (total_xp (schedule w.2) + 2 * Hn - Wn)%Z ∧
       total_strength (schedule w'.2)
       = (total_strength (schedule w.2) + 3 * Hn)%Z) ∧
    (∀ p a, schedule w.2 !! p = Some a →
       ∃ a', schedule w'.2 !! p = Some a' ∧
         (- 2 * Z.of_nat (length log) ≤ xp a' - xp a
          ≤ Z.of_nat (length log)
            + 2 * Z.of_nat (count_occ Nat.eq_dec log p))%Z).
Proof.
  induction 1 as [w|self log [g m] w1 w2 Hs Hstep _ IH]; intros B HB Hroom.
  - cbn [length] in *. split.
    { eapply Forall_impl; [exact HB|]. intros a Ha. cbv beta in *. lia. }
    split.
    { exists 0%Z, 0%Z. lia. }
    intros p a Hp. exists a. split; [done|]. simpl. lia.
  - cbn [snd length] in *. rewrite Nat2Z.inj_succ in *.
    destruct (Warrior_step_exact self g m B Hs HB)
      as (g1 & m1 & E & HB1 & Hx & Hst & Hpt); [lia|].
    rewrite E in Hstep. simplify_eq. cbn [snd] in *.
    destruct (IH (B + 3)%Z HB1) as (HB' & (Hn & Wn & HHn & HWn & Hx' & Hst') & Hpt');
      [lia|].
    split.
    { eapply Forall_impl; [exact HB'|]. intros a Ha. cbv beta in *. lia. }
    split.
    { exists (Hn + if is_hunt_success (hunt_roll g) then 1 else 0)%Z,
             (Wn + if do_wrestle (wrestle_roll g) then 1 else 0)%Z.
      rewrite Hx', Hst', Hx, Hst.
      destruct (is_hunt_success _), (do_wrestle _); lia. }
    intros p a Hp.
    destruct (Hpt p a Hp) as (a1 & Hp1 & Hx1).
    destruct (Hpt' p a1 Hp1) as (a' & Hp' & Hxp').
    exists a'. split; [done|]. revert Hx1. unfold bump.
    cbn [count_occ].
    destruct (Nat.eq_dec self p), (decide (self = p)); try done; lia.
Qed.

(** The same over the ticks of a run: three per activation, [n] activations
    per tick. *)
Lemma run_ticks_exact T g m B :
  keys_unique m →
  xp_bounded B (schedule m) →
  (B + 3 * (Z.of_nat (length (schedule m)) * Z.of_nat T) ≤ 2 ^ 53)%Z →
  ∃ w' (Hn Wn : Z),
    run_ticks T (g, m) = Ok (tt, w') ∧
    length (schedule w'.2) = length (schedule m) ∧
    (0 ≤ Hn ≤ Z.of_nat (length (schedule m)) * Z.of_nat T)%Z ∧
    (0 ≤ Wn ≤ Z.of_nat (length (schedule m)) * Z.of_nat T)%Z ∧
    total_xp (schedule w'.2)
    = (total_xp (schedule m) + 2 * Hn - Wn)%Z ∧
    total_strength (schedule w'.2)
    = (total_strength (schedule m) + 3 * Hn)%Z ∧
    ∀ p a, schedule m !! p = Some a →
      ∃ a', schedule w'.2 !! p = Some a' ∧
        (- 2 * (Z.of_nat (length (schedule m)) * Z.of_nat T)
         ≤ xp a' - xp a
         ≤ (Z.of_nat (length (schedule m)) + 2) * Z.of_nat T)%Z.
Proof.
  intros Hnd HB Hroom.
  destruct (run_ticks_induction (λ T w w',
    length (schedule w'.2) = length (schedule w.2) ∧
    ∀ B, xp_bounded B (schedule w.2) →
      (B + 3 * (Z.of_nat (length (schedule w.2)) * Z.of_nat T) ≤ 2 ^ 53)%Z →
      (∃ Hn Wn : Z,
         (0 ≤ Hn ≤ Z.of_nat (length (schedule w.2)) * Z.of_nat T)%Z ∧
         (0 ≤ Wn ≤ Z.of_nat (length (schedule w.2)) * Z.of_nat T)%Z ∧
         total_xp (schedule w'.2)
         = (total_xp (schedule w.2) + 2 * Hn - Wn)%Z ∧
         total_strength (schedule w'.2)
         = (total_strength (schedule w.2) + 3 * Hn)%Z) ∧
      (∀ p a, schedule w.2 !! p = Some a →
         ∃ a', schedule w'.2 !! p = Some a' ∧
           (- 2 * (Z.of_nat (length (schedule w.2)) * Z.of_nat T)
            ≤ xp a' - xp a
            ≤ (Z.of_nat (length (schedule w.2)) + 2) * Z.of_nat T)%Z)))
    with (T := T) (g := g) (m := m)
    as (w' & Hrun & Hlen & Hall); [| |done|].
  - intros w. split; [done|]. intros B0 _ _. split.
    + exists 0%Z, 0%Z. lia.
    + intros p a Hp. exists a. split; [done|]. lia.
  - clear T g m B Hnd HB Hroom.
    intros T g m log w1 w2 Hnd Hperm Htrace [Hlen IH].
    destruct (activations_shape _ _ _ Htrace) as [_ Hlen1].
    cbn [snd] in *. rewrite Hlen1 in *. split; [done|].
    intros B HB Hroom.
    pose proof (Permutation_length Hperm) as Hn. rewrite length_seq in Hn.
    rewrite Nat2Z.inj_succ, Z.mul_succ_r in Hroom.
    assert (0 ≤ Z.of_nat (length (schedule m)) * Z.of_nat T)%Z as Hnn by lia.
    destruct (activations_exact _ _ _ Htrace B HB)
      as (HB1 & (Hn1 & Wn1 & HHn1 & HWn1 & Hx1 & Hst1) & Hpt1);
      [rewrite Hn; lia|].
    rewrite Hn in *. cbn [snd] in *.
    destruct (IH _ HB1) as ((Hn2 & Wn2 & HHn2 & HWn2 & Hx2 & Hst2) & Hpt2);
      [lia|].
    split.
    + exists (Hn1 + Hn2)%Z, (Wn1 + Wn2)%Z.
      rewrite Hx2, Hst2, Hx1, Hst1, Nat2Z.inj_succ, Z.mul_succ_r. lia.
    + intros p a Hp.
      destruct (Hpt1 p a Hp) as (a1 & Hp1 & Hr1).
      assert (p < length (schedule m)) as Hlt by (by eapply lookup_lt_Some).
      rewrite (count_occ_once log _ p Hperm Hlt) in Hr1.
      destruct (Hpt2 p a1 Hp1) as (a' & Hp' & Hr').
      exists a'. split; [done|]. rewrite Nat2Z.inj_succ. lia.
  - cbn [snd] in *.
    destruct (Hall B HB Hroom) as ((Hn & Wn & HHn & HWn & Hx & Hst) & Hpt).
    exists w', Hn, Wn. done.
Qed.

(** X3.  The bookkeeping of a run.  Over [T] ticks of a village of [n]
    agents whose xp start within [2^53 - 3 n T], so that every update of
    the run is exact, there are a number [Hn] of successful hunts and a
    number [Wn] of wrestles, each at most [n * T], such that the xp summed
    over the population has moved by [2 Hn - Wn] and the summed strength by
    [3 Hn].  Hunts therefore leave [3 * total xp - 2 * total strength] as it
    was, and every wrestle lowers it by 3. *)
Theorem hunts_and_wrestles_account T g m :
  keys_unique m →
  xp_bounded (2 ^ 53 - 3 * (Z.of_nat (length (schedule m)) * Z.of_nat T))
    (schedule m) →
  ∃ w' (Hn Wn : Z),
    run_ticks T (g, m) = Ok (tt, w') ∧
    (0 ≤ Hn ≤ Z.of_nat (length (schedule m)) * Z.of_nat T)%Z ∧
    (0 ≤ Wn ≤ Z.of_nat (length (schedule m)) * Z.of_nat T)%Z ∧
    total_xp (schedule w'.2)
    = (total_xp (schedule m) + 2 * Hn - Wn)%Z ∧
    total_strength (schedule w'.2)
    = (total_strength (schedule m) + 3 * Hn)%Z ∧
    (3 * total_xp (schedule w'.2) - 2 * total_strength (schedule w'.2)
     = 3 * total_xp (schedule m) - 2 * total_strength (schedule m) - 3 * Wn)%Z.
Proof.
  intros Hnd HB.
  destruct (run_ticks_exact T g m _ Hnd HB)
    as (w' & Hn & Wn & Hrun & _ & HHn & HWn & Hx & Hst & _); [lia|].
  exists w', Hn, Wn. repeat split; try done; lia.
Qed.

Lemma newly_built_totals k ags :
  newly_built k ags →
  total_xp ags = Z.of_nat k ∧
  (Z.of_nat k ≤ total_strength ags ≤ 9 * Z.of_nat k)%Z.
Proof.
  intros [Hlen Hpt].
  assert (Forall (λ a, xp a = 1%Z ∧ (1 ≤ strength a ≤ 9)%Z) ags) as Hall.
  { apply Forall_lookup. intros i a Hi.
    by destruct (Hpt i a Hi) as (_ & _ & ? & ?). }
  clear Hpt. subst k. unfold total_xp, total_strength.
  induction Hall as [|a ags [Hx Hs] _ IH]; [simpl; lia|].
  cbn [foldr length]. rewrite Nat2Z.inj_succ. lia.
Qed.

Lemma read_out_totals m :
  foldr (λ p acc, (p.1 + acc)%Z) 0%Z (read_out m) = total_xp (schedule m) ∧
  foldr (λ p acc, (p.2 + acc)%Z) 0%Z (read_out m)
  = total_strength (schedule m).
Proof.
  unfold read_out, total_xp, total_strength.
  induction (schedule m) as [|a ags [IHx IHs]]; [done|].
  cbn [fmap list_fmap foldr fst snd]. split; f_equal; assumption.
Qed.

Lemma newly_built_xp_bounded k ags :
  newly_built k ags → xp_bounded 1 ags.
Proof.
  intros [_ Hpt]. apply Forall_lookup. intros i a Hi.
  destruct (Hpt i a Hi) as (_ & _ & -> & _). lia.
Qed.

(** X4.  The totals of a read-out.  After construction with the integer
    [z] (so [n = max z 0] agents) and [T] ticks, with [1 + 3 n T] at most
    [2^53] so that every update of the run is exact, the xp of the read-out
    sum to a value between [n - n T] and [n + 2 n T], and the strengths to a
    value between [n] and [9 n + 3 n T]. *)
Theorem totals_of_a_run z T g :
  (1 + 3 * (Z.of_nat (Z.to_nat z) * Z.of_nat T) ≤ 2 ^ 53)%Z →
  ∃ out,
    simulate (PyInt z) T g = Ok out ∧
    (Z.of_nat (Z.to_nat z) - Z.of_nat (Z.to_nat z) * Z.of_nat T
     ≤ foldr (λ p acc, p.1 + acc) 0 out
     ≤ Z.of_nat (Z.to_nat z) + 2 * (Z.of_nat (Z.to_nat z) * Z.of_nat T))%Z ∧
    (Z.of_nat (Z.to_nat z)
     ≤ foldr (λ p acc, p.2 + acc) 0 out
     ≤ 9 * Z.of_nat (Z.to_nat z) + 3 * (Z.of_nat (Z.to_nat z) * Z.of_nat T))%Z.
Proof.
  intros Hroom. unfold simulate.
  destruct (Village_init_run z g) as (g0 & m0 & -> & _ & Hb).
  pose proof (newly_built_unique _ _ Hb) as Hnd0.
  pose proof (newly_built_xp_bounded _ _ Hb) as HB0.
  destruct (newly_built_totals _ _ Hb) as [Hx0 Hs0].
  destruct Hb as [Hlen _].
  destruct (run_ticks_exact T g0 m0 1 Hnd0 HB0)
    as ([g1 m1] & Hn & Wn & -> & _ & HHn & HWn & Hx & Hst & _);
    [by rewrite Hlen|].
  rewrite Hlen in *.
  eexists. split; [done|]. cbn [snd] in *.
  destruct (read_out_totals m1) as [-> ->]. lia.
Qed.

(** X5.  A village without agents: a tick activates nobody and leaves the
    model as it is, so any number of ticks does; and a run constructed with
    a size of zero or less reads out the empty list. *)
Theorem empty_village_run :
  (∀ T g m, schedule m = [] →
     ∃ g', run_ticks T (g, m) = Ok (tt, (g', m))) ∧
  (∀ z T g, (z ≤ 0)%Z → simulate (PyInt z) T g = Ok []).
Proof.
  assert (∀ T g m, schedule m = [] →
     ∃ g', run_ticks T (g, m) = Ok (tt, (g', m))) as Hticks.
  { induction T as [|T IH]; intros g m Hm; [by exists g|].
    cbn [run_ticks]. rewrite bind_run.
    unfold Village_step, RandomActivation_step.
    rewrite bind_run. cbn [get_agents snd]. rewrite bind_run, Hm.
    unfold random_shuffle. cbn [fst snd fmap list_fmap].
    pose proof (shuffle_perm [] g) as Hperm.
    destruct (shuffle [] g) as [keys g1]. cbn [fst] in Hperm.
    apply Permutation_nil_r in Hperm. subst keys. cbn [agent_buffer].
    unfold mret, M_ret. by apply IH. }
  split; [exact Hticks|].
  intros z T g Hz. unfold simulate, Village_init.
  rewrite bind_run. cbn [lift py_range].
  replace (Z.to_nat z) with 0 by lia. cbn [seq fmap list_fmap for_each].
  unfold mret, M_ret.
  destruct (Hticks T g (mkVillage (PyInt z) []) eq_refl) as [g' ->].
  reflexivity.
Qed.

(** X6.  A village of one.  Whatever is picked, the opponent of a lone
    agent is the agent itself, so a wrestle always costs it 1 xp: after an
    activation of an agent whose xp is within [2^53 - 3] its xp is up by 2
    for a successful hunt and down by 1 for a wrestle, and its strength up
    by 3 for the hunt. *)
Theorem lone_warrior g m a :
  schedule m = [a] →
  xp_exact a →
  ∃ g',
    Warrior_step 0 (g, m)
    = Ok (tt, (g',
               mkVillage (num_agents m)
                 [mkWarrior (unique_id a) (id a)
                    (xp a
                     + (if is_hunt_success (hunt_roll g) then 2 else 0)
                     - (if do_wrestle (wrestle_roll g) then 1 else 0))
                    (strength a
                     + (if is_hunt_success (hunt_roll g) then 3 else 0))])).
Proof.
  intros Hm Hx. unfold xp_exact in Hx.
  assert (0 < length (schedule m)) as Hs by (rewrite Hm; simpl; lia).
  rewrite Warrior_step_run by done.
  assert (opponent_pick (length (schedule m)) g = 0) as Hpick.
  { pose proof (choice_range (length (schedule m))
                  (uniform (uniform g).2).2 Hs) as Hlt.
    unfold opponent_pick. rewrite Hm in *. simpl in *. lia. }
  unfold set_schedule. rewrite Hpick, Hm. unfold hunted, wrestled.
  destruct a as [uid i x s]. cbn [xp] in Hx.
  destruct (is_hunt_success (hunt_roll g)), (do_wrestle (wrestle_roll g));
    eexists; cbn; rewrite ?Z.ltb_irrefl; cbn; unfold add_xp, add_strength;
    cbn [unique_id id xp strength];
    rewrite ?(binary64_round_exact (x + 2)) by lia;
    rewrite ?(binary64_round_exact (x + 2 + -2)) by lia;
    rewrite ?(binary64_round_exact (x + -2)) by lia;
    rewrite ?(binary64_round_exact (x + 2 + -2 + 1)) by lia;
    rewrite ?(binary64_round_exact (x + -2 + 1)) by lia;
    (do 4 f_equal; f_equal; [f_equal; lia]).
Qed.

End RunProperties.

(** ** The range of an agent's xp *)

Section XpRange.
Context `{RandomSourceLaws G}.
Implicit Types (g : G) (m : Village) (ags : list Warrior) (w : G * Village).

(** X9.  The range of an agent's xp, while the updates are exact.  One
    activation moves an agent's xp by -2 at least, and by 1 at most, or 3
    for the acting agent, when every xp is within [2^53 - 3].  Over [T]
    ticks of a village of [n] agents whose xp start within [2^53 - 3 n T],
    an agent's xp falls by [2 n T] at most and rises by [(n + 2) T] at
    most.  After construction and [T] ticks, with [1 + 3 n T] at most
    [2^53], every xp read out lies between [1 - 2 n T] and
    [1 + (n + 2) T]. *)
Theorem xp_range :
  (∀ self g m, self < length (schedule m) →
     Forall xp_exact (schedule m) →
     ∃ g' m',
       Warrior_step self (g, m) = Ok (tt, (g', m')) ∧
       ∀ p a, schedule m !! p = Some a →
         ∃ a', schedule m' !! p = Some a' ∧
           (-2 ≤ xp a' - xp a ≤ 1 + bump self 2 p)%Z) ∧
  (∀ T g m, keys_unique m →
     xp_bounded (2 ^ 53 - 3 * (Z.of_nat (length (schedule m)) * Z.of_nat T))
       (schedule m) →
     ∃ w', run_ticks T (g, m) = Ok (tt, w') ∧
       ∀ p a, schedule m !! p = Some a →
         ∃ a', schedule w'.2 !! p = Some a' ∧
           (- 2 * (Z.of_nat (length (schedule m)) * Z.of_nat T)
            ≤ xp a' - xp a
            ≤ (Z.of_nat (length (schedule m)) + 2) * Z.of_nat T)%Z) ∧
  (∀ z T g,
     (1 + 3 * (Z.of_nat (Z.to_nat z) * Z.of_nat T) ≤ 2 ^ 53)%Z →
     ∃ out, simulate (PyInt z) T g = Ok out ∧
       ∀ x s, (x, s) ∈ out →
         (1 - 2 * (Z.of_nat (Z.to_nat z) * Z.of_nat T) ≤ x
          ≤ 1 + (Z.of_nat (Z.to_nat z) + 2) * Z.of_nat T)%Z).
Proof.
  split; [exact Warrior_step_xp_range|]. split.
  - intros T g m Hnd HB.
    destruct (run_ticks_exact T g m _ Hnd HB)
      as (w' & Hn & Wn & Hrun & _ & _ & _ & _ & _ & Hpt); [lia|].
    by exists w'.
  - intros z T g Hroom. unfold simulate.
    destruct (Village_init_run z g) as (g0 & m0 & -> & _ & Hb).
    pose proof (newly_built_unique _ _ Hb) as Hnd0.
    pose proof (newly_built_xp_bounded _ _ Hb) as HB0.
    destruct Hb as [Hn Hb].
    destruct (run_ticks_exact T g0 m0 1 Hnd0 HB0)
      as ([g1 m1] & Hn1 & Wn1 & -> & Hlen & _ & _ & _ & _ & Hpt);
      [by rewrite Hn|].
    eexists. split; [done|]. unfold read_out. cbn [snd] in *.
    intros x s Hin. apply list_elem_of_fmap in Hin as (a' & [= -> ->] & Hin).
    apply list_elem_of_lookup in Hin as [i Hi].
    assert (i < length (schedule m0)) as Hlt.
    { rewrite <-Hlen. by eapply lookup_lt_Some. }
    destruct (lookup_lt_is_Some_2 _ _ Hlt) as [a Ha].
    destruct (Hpt i a Ha) as (a'' & Hi' & Hx).
    rewrite Hi in Hi'. simplify_eq.
    destruct (Hb i a Ha) as (_ & _ & Hx0 & _).
    rewrite Hn in Hx. lia.
Qed.

End XpRange.

(** ** The draws a run makes *)

#[export] Instance Counted_laws : RandomSourceLaws Counted.
Proof.
  split.
  - intros lo hi [t c] Hlt. exact (randint_range (G := Tape) lo hi t Hlt).
  - intros n [t c] Hn. exact (choice_range (G := Tape) n t Hn).
  - intros l [t c]. exact (shuffle_perm (G := Tape) l t).
Qed.

Section Draws.
Implicit Types (t : Tape) (c : nat) (m : Village).

Lemma counted_activation self t c m :
  self < length (schedule m) →
  ∃ t' m',
    Warrior_step (G := Counted) self ((t, c), m)
    = Ok (tt, ((t', c + 2 + (if do_wrestle (wrestle_roll (G := Counted) (t, c))
                             then 1 else 0)),
               m')).
Proof.
  intros Hs. rewrite Warrior_step_run by done.
  destruct (do_wrestle (wrestle_roll (G := Counted) (t, c))); eexists _, _;
    cbn; do 3 f_equal; f_equal; lia.
Qed.

Lemma counted_activations log (w w' : Counted * Village) :
  activations log w w' →
  ∃ Wn : Z,
    (0 ≤ Wn ≤ Z.of_nat (length log))%Z ∧
    Z.of_nat w'.1.2 = (Z.of_nat w.1.2 + 2 * Z.of_nat (length log) + Wn)%Z ∧
    ∀ B, xp_bounded B (schedule w.2) →
      (B + 3 * Z.of_nat (length log) ≤ 2 ^ 53)%Z →
      xp_bounded (B + 3 * Z.of_nat (length log)) (schedule w'.2) ∧
      (3 * total_xp (schedule w'.2) - 2 * total_strength (schedule w'.2)
       = 3 * total_xp (schedule w.2) - 2 * total_strength (schedule w.2)
         - 3 * Wn)%Z.
Proof.
  induction 1 as [w|self log [[t c] m] w1 w2 Hs Hstep _ IH].
  - exists 0%Z. cbn [length]. split; [lia|]. split; [lia|].
    intros B HB _. split; [|lia].
    eapply Forall_impl; [exact HB|]. intros a Ha. cbv beta in *. lia.
  - cbn [fst snd length] in *. rewrite Nat2Z.inj_succ.
    destruct (counted_activation self t c m Hs) as (t1 & m1 & E).
    pose proof (eq_trans (eq_sym E) Hstep) as E2.
    simplify_eq. cbn [fst snd] in *.
    destruct IH as (Wn & HWn & Hc & HQ).
    exists (Wn + if do_wrestle (wrestle_roll (G := Counted) (t, c))
                 then 1 else 0)%Z.
    split; [destruct (do_wrestle _); lia|].
    split; [rewrite Hc; destruct (do_wrestle _); lia|].
    intros B HB Hroom.
    destruct (Warrior_step_exact (G := Counted) self (t, c) m B Hs HB)
      as (g1 & m1' & E' & HB1 & Hx & Hst & _); [lia|].
    pose proof (eq_trans (eq_sym E) E') as E1. simplify_eq.
    destruct (HQ (B + 3)%Z HB1) as [HB' HQ']; [lia|].
    split.
    + eapply Forall_impl; [exact HB'|]. intros a Ha. cbv beta in *. lia.
    + rewrite HQ', Hx, Hst.
      destruct (is_hunt_success _), (do_wrestle _); lia.
Qed.

Lemma counted_constructor_loop n : ∀ k t c m,
  ∃ t' m',
    for_each (G := Counted) (Z.of_nat <$> seq k n)
      (λ i, agent ← Warrior_init i; schedule_add agent) ((t, c), m)
    = Ok (tt, ((t', c + n), m')).
Proof.
  induction n as [|n IH]; intros k t c m.
  - exists t, m. cbn. by rewrite Nat.add_0_r.
  - cbn [seq fmap list_fmap for_each]. rewrite bind_run.
    assert ((agent ← Warrior_init (G := Counted) (Z.of_nat k);
             schedule_add agent) ((t, c), m)
            = Ok (tt, (((tape_randint 1 10 t).2, S c),
                       set_schedule
                         (dict_set (mkWarrior (Z.of_nat k) (Z.of_nat k) 1
                                      (tape_randint 1 10 t).1)) m)))
      as -> by reflexivity.
    destruct (IH (S k) (tape_randint 1 10 t).2 (S c)
                (set_schedule
                   (dict_set (mkWarrior (Z.of_nat k) (Z.of_nat k) 1
                                (tape_randint 1 10 t).1)) m))
      as (t' & m' & ->).
    exists t', m'. by rewrite Nat.add_succ_comm.
Qed.


End Draws.

(** ** The sampling cell *)

Section SamplingProperties.
Context `{RandomSource G}.
Import Sampling.

Lemma after_uniforms_add k j (g : G) :
  after_uniforms (k + j) g = after_uniforms k (after_uniforms j g).
Proof. unfold after_uniforms. apply Nat.iter_add. Qed.

Lemma MCMC_loop_cons np_exp i rest acc (g : G) :
  MCMC_loop np_exp (i :: rest) acc g
  = MCMC_loop np_exp rest
      (acc ++ [(λ x, x + (uniform g).1)%float
               <$> (float_of_Z <$> np_arange (-10) 30 5)])
      (uniform (uniform g).2).2.
Proof.
  cbn [MCMC_loop]. destruct (uniform g) as [r g1]. cbn [fst snd].
  destruct (uniform g1) as [u g2]. reflexivity.
Qed.

Lemma MCMC_loop_run np_exp range : ∀ acc (g : G),
  MCMC_loop np_exp range acc g
  = (acc ++ ((λ i, (λ x, x + (uniform (after_uniforms (2 * i) g)).1)%float
                     <$> (float_of_Z <$> np_arange (-10) 30 5))
             <$> seq 0 (length range)),
     after_uniforms (2 * length range) g).
Proof.
  induction range as [|i range IH]; intros acc g.
  - cbn. by rewrite app_nil_r.
  - rewrite MCMC_loop_cons, IH. cbn [length seq fmap list_fmap].
    assert (∀ k, after_uniforms (2 * k) (uniform (uniform g).2).2
                 = after_uniforms (2 * S k) g) as Hk.
    { intros k. replace (2 * S k) with (2 * k + 2) by lia.
      by rewrite after_uniforms_add. }
    f_equal.
    + rewrite <-app_assoc. f_equal. cbn [app]. f_equal.
      rewrite <-fmap_S_seq, <-list_fmap_compose.
      apply list_fmap_ext. intros _ k _. cbn [compose]. by rewrite <-Hk.
    + by rewrite Hk.
Qed.

(** X8.  [MCMC] never rejects a proposal.  Its test reads the attribute
    [all] of the comparison without calling it, and that object is true
    whatever the comparison holds.  So [MCMC(K)] returns one sample per
    turn of the loop, [max K 0] in all; the sample of turn [i] is the grid
    [-10, -5, .., 25] shifted by the first of the two uniform draws of that
    turn; and neither the density [f] nor the second draw has any part in
    the result. *)
Theorem MCMC_accepts_every_proposal np_exp z (g : G) :
  ∃ samples,
    MCMC np_exp (PyInt z) g
    = Ok (samples, after_uniforms (2 * Z.to_nat z) g) ∧
    length samples = Z.to_nat z ∧
    (∀ i, i < Z.to_nat z →
       samples !! i
       = Some ((λ x, x + (uniform (after_uniforms (2 * i) g)).1)%float
               <$> (float_of_Z <$> np_arange (-10) 30 5))) ∧
    ∀ np_exp', MCMC np_exp' (PyInt z) g = MCMC np_exp (PyInt z) g.
Proof.
  eexists. unfold MCMC. cbn [py_range].
  rewrite MCMC_loop_run, length_fmap, length_seq. cbn [app].
  split; [reflexivity|]. split; [by rewrite length_fmap, length_seq|]. split.
  - intros i Hi. rewrite list_lookup_fmap, lookup_seq_lt by done. done.
  - intros np_exp'. by rewrite MCMC_loop_run, length_fmap, length_seq.
Qed.

(** The grid of [MCMC]. *)
Example MCMC_grid :
  float_of_Z <$> np_arange (-10) 30 5
  = [-10; -5; 0; 5; 10; 15; 20; 25]%float.
Proof. reflexivity. Qed.

End SamplingProperties.

(** ** The further properties at the sample data *)

Lemma sample_village_keys_unique : keys_unique sample_village.
Proof.
  unfold keys_unique. simpl. apply (bool_decide_unpack _). reflexivity.
Qed.

(** [run_keeps_population] at three agents and two ticks. *)
Lemma run_keeps_population_witness :
  ∃ w0 w1,
    Village_init (PyInt 3) tape_run = Ok (tt, w0) ∧
    run_ticks 2 w0 = Ok (tt, w1) ∧
    num_agents w1.2 = PyInt 3 ∧
    unique_id <$> schedule w1.2 = [0; 1; 2]%Z ∧
    id <$> schedule w1.2 = [0; 1; 2]%Z ∧
    length (read_out w1.2) = 3.
Proof. exact (run_keeps_population 3 2 tape_run). Defined.

(** [strength_gain_bounded] at the sample village over two ticks, and at a
    run of two ticks: strengths from 1 to 15. *)
Lemma strength_gain_bounded_witness :
  keys_unique sample_village ∧
  (∃ w', run_ticks 2 (tape_run, sample_village) = Ok (tt, w') ∧
     ∃ a' k, schedule w'.2 !! 0 = Some a' ∧
       (0 ≤ k ≤ 2)%Z ∧ strength a' = (5 + 3 * k)%Z) ∧
  (∃ out, simulate (PyInt 3) 2 tape_run = Ok out ∧
     ∀ x s, (x, s) ∈ out → (1 ≤ s ≤ 15)%Z).
Proof.
  destruct (strength_gain_bounded (G := Tape)) as [Hticks Hrun].
  split; [exact sample_village_keys_unique|]. split.
  - destruct (Hticks 2 tape_run sample_village sample_village_keys_unique)
      as (w' & Hw' & Hpt).
    exists w'. split; [exact Hw'|].
    exact (Hpt 0 (mkWarrior 0 0 1 5) eq_refl).
  - exact (Hrun 3%Z 2 tape_run).
Defined.

Lemma sample_village_xp_bounded :
  xp_bounded (2 ^ 53 - 3 * (Z.of_nat 3 * Z.of_nat 2))
    (schedule sample_village).
Proof. repeat constructor; simpl; lia. Qed.

(** [hunts_and_wrestles_account] at the sample village over two ticks. *)
Lemma hunts_and_wrestles_account_witness :
  keys_unique sample_village ∧
  xp_bounded (2 ^ 53 - 3 * (Z.of_nat 3 * Z.of_nat 2))
    (schedule sample_village) ∧
  ∃ w' (Hn Wn : Z),
    run_ticks 2 (tape_run, sample_village) = Ok (tt, w') ∧
    (0 ≤ Hn ≤ 6)%Z ∧ (0 ≤ Wn ≤ 6)%Z ∧
    total_xp (schedule w'.2) = (3 + 2 * Hn - Wn)%Z ∧
    total_strength (schedule w'.2) = (17 + 3 * Hn)%Z.
Proof.
  split; [exact sample_village_keys_unique|].
  split; [exact sample_village_xp_bounded|].
  destruct (hunts_and_wrestles_account 2 tape_run sample_village
              sample_village_keys_unique sample_village_xp_bounded)
    as (w' & Hn & Wn & Hrun & HHn & HWn & Hx & Hst & _).
  exists w', Hn, Wn. split; [exact Hrun|]. split; [exact HHn|].
  split; [exact HWn|]. split; [exact Hx|exact Hst].
Defined.

(** [totals_of_a_run] at three agents and two ticks. *)
Lemma totals_of_a_run_witness :
  (1 + 3 * (Z.of_nat (Z.to_nat 3) * Z.of_nat 2) ≤ 2 ^ 53)%Z ∧
  ∃ out,
    simulate (PyInt 3) 2 tape_run = Ok out ∧
    (-3 ≤ foldr (λ p acc, p.1 + acc) 0 out ≤ 15)%Z ∧
    (3 ≤ foldr (λ p acc, p.2 + acc) 0 out ≤ 45)%Z.
Proof.
  split; [simpl; lia|].
  apply (totals_of_a_run 3 2 tape_run). simpl. lia.
Defined.

(** [empty_village_run] at an empty village and at the size -4. *)
Lemma empty_village_run_witness :
  (∃ g', run_ticks 5 (tape_run, mkVillage (PyInt 0) [])
         = Ok (tt, (g', mkVillage (PyInt 0) []))) ∧
  simulate (PyInt (-4)) 5 tape_run = Ok [].
Proof.
  destruct (empty_village_run (G := Tape)) as [Hticks Hrun].
  split.
  - exact (Hticks 5 tape_run (mkVillage (PyInt 0) []) eq_refl).
  - apply Hrun. lia.
Defined.

(** [lone_warrior] at a village of one whose hunt fails and whose wrestle
    fires: xp 1 becomes 0. *)
Lemma lone_warrior_witness :
  xp_exact (mkWarrior 0 0 1 4) ∧
  ∃ g',
    Warrior_step 0 (tape_wrestle 7, mkVillage (PyInt 1) [mkWarrior 0 0 1 4])
    = Ok (tt, (g', mkVillage (PyInt 1) [mkWarrior 0 0 0 4])).
Proof.
  assert (xp_exact (mkWarrior 0 0 1 4)) as Hx
    by (unfold xp_exact; simpl; lia).
  split; [exact Hx|].
  exact (lone_warrior (tape_wrestle 7)
           (mkVillage (PyInt 1) [mkWarrior 0 0 1 4]) (mkWarrior 0 0 1 4)
           eq_refl Hx).
Defined.


(** [MCMC_accepts_every_proposal] at two turns on the scripted source. *)
Lemma MCMC_accepts_every_proposal_witness :
  ∃ samples,
    Sampling.MCMC (λ x, x) (PyInt 2) tape_run
    = Ok (samples, after_uniforms 4 tape_run) ∧
    length samples = 2.
Proof.
  destruct (MCMC_accepts_every_proposal (λ x, x) 2 tape_run)
    as (samples & Hrun & Hlen & _).
  exists samples. split; [exact Hrun|exact Hlen].
Defined.

(** [xp_range] at an activation of the sample village, over two ticks of
    it, and at a run of three agents and two ticks: every xp from -11 to
    11. *)
Lemma xp_range_witness :
  (∃ g' m',
     Warrior_step 0 (tape_wrestle 1, sample_village) = Ok (tt, (g', m')) ∧
     ∃ a', schedule m' !! 1 = Some a' ∧ (-2 ≤ xp a' - 1 ≤ 1)%Z) ∧
  (∃ w', run_ticks 2 (tape_run, sample_village) = Ok (tt, w') ∧
     ∃ a', schedule w'.2 !! 0 = Some a' ∧ (-12 ≤ xp a' - 1 ≤ 10)%Z) ∧
  (∃ out, simulate (PyInt 3) 2 tape_run = Ok out ∧
     ∀ x s, (x, s) ∈ out → (-11 ≤ x ≤ 11)%Z).
Proof.
  destruct (xp_range (G := Tape)) as (Hstep & Hticks & Hrun).
  split; [|split].
  - destruct (Hstep 0 (tape_wrestle 1) sample_village) as (g' & m' & E & Hpt).
    { simpl. lia. }
    { repeat constructor; unfold xp_exact; simpl; lia. }
    exists g', m'. split; [exact E|].
    exact (Hpt 1 (mkWarrior 1 1 1 7) eq_refl).
  - destruct (Hticks 2 tape_run sample_village sample_village_keys_unique
                sample_village_xp_bounded) as (w' & E & Hpt).
    exists w'. split; [exact E|].
    exact (Hpt 0 (mkWarrior 0 0 1 5) eq_refl).
  - apply (Hrun 3%Z 2 tape_run). simpl. lia.
Defined.
